(** * AutoThreshold: the threshold estimators of the FreeFrame plugin

    A shallow embedding of [Source/AutoThreshold.cpp] (class [AutoThreshold]):
    the gradient estimator, the histogram builder, the entropy-split and
    Otsu estimators and the threshold blending done at the start of
    [ProcessOpenGL].

    Conventions of the embedding.
    - A C [int] is a [Z]; every [int] operation is followed by the 32-bit
      two's complement wrap-around [Int.wrap].  An [unsigned short] is a [Z]
      wrapped modulo 2^16.
    - The pixel buffer is a [list byte]; a pointer into it is its byte
      offset from [buffer]; a read outside the buffer is the fault
      [OutOfBounds].
    - A member function takes the object and returns it with its result.
    - [float] and [double] values are taken from an interface [FloatOps];
      what is proved for every instance holds whatever the machine
      arithmetic does.  The instance [Q_ops] reads every floating point
      value as the exact rational it denotes.  For [gradient] on a frame
      whose byte count fits an [int] this is what the machine computes up
      to the last division: there are at most 2^25 samples, the two
      [double] sums are integers below 2^36 and 2^46, which [double]
      represents and adds exactly, and their quotient is at least 2^-36
      away from the next integer, so its cast to [int] is the truncated
      exact quotient.  The [float] division by [3 * 256] is kept as the
      exact rational.  The instance [IEEE_ops] adds the two infinities
      and NaN to the rationals; it is used where a value comes from bits
      that the host supplies. *)

From Stdlib Require Import ZArith QArith Qminmax List Bool Lia.
From Stdlib Require Import Strings.Byte.
Import ListNotations.

Local Open Scope Z_scope.

(** ** Machine integers *)

Module Int.

Definition min_int : Z := - 2 ^ 31.
Definition max_int : Z := 2 ^ 31 - 1.

Definition in_range (z : Z) : Prop := min_int <= z <= max_int.

(** Two's complement wrap-around of a 32-bit [int]. *)
Definition wrap (z : Z) : Z := (z + 2 ^ 31) mod 2 ^ 32 - 2 ^ 31.

Definition add (a b : Z) : Z := wrap (a + b).
Definition sub (a b : Z) : Z := wrap (a - b).
Definition mul (a b : Z) : Z := wrap (a * b).
(** C division truncates toward zero. *)
Definition div (a b : Z) : Z := wrap (Z.quot a b).
Definition abs (a : Z) : Z := wrap (Z.abs a).

(** The macro [MAX(x, y) (((x) > (y)) ? (x) : (y))]. *)
Definition MAX (x y : Z) : Z := if x >? y then x else y.

End Int.

Module UShort.

(** Wrap-around of an [unsigned short] (16 bits). *)
Definition wrap (z : Z) : Z := z mod 2 ^ 16.

(** [h++] on an [unsigned short]. *)
Definition incr (h : Z) : Z := wrap (h + 1).

End UShort.

Declare Scope int_scope.
Delimit Scope int_scope with int.
Infix "+" := Int.add : int_scope.
Infix "-" := Int.sub : int_scope.
Infix "*" := Int.mul : int_scope.
Infix "/" := Int.div : int_scope.

(** ** Outcomes of a run *)

Inductive result (A : Type) : Type :=
| Ok (a : A)      (* the run returned [a] *)
| OutOfBounds     (* a byte outside the pixel buffer was read *)
| OutOfFuel.      (* the iteration bound of a loop model was reached *)

Arguments Ok {A} a.
Arguments OutOfBounds {A}.
Arguments OutOfFuel {A}.

Definition bind {A B : Type} (r : result A) (k : A -> result B) : result B :=
  match r with
  | Ok a => k a
  | OutOfBounds => OutOfBounds
  | OutOfFuel => OutOfFuel
  end.

Notation "x <- e ;; k" := (bind e (fun x => k))
  (at level 61, e at next level, right associativity).
Notation "' pat <- e ;; k" := (bind e (fun x => match x with pat => k end))
  (at level 61, pat pattern, e at next level, right associativity).

(** ** The pixel buffer *)

Definition byte_val (b : byte) : Z := Z.of_N (Byte.to_N b).

(** [(int)*(buffer + off)]. *)
Definition peek (buffer : list byte) (off : Z) : result Z :=
  if off <? 0 then OutOfBounds
  else match nth_error buffer (Z.to_nat off) with
       | Some b => Ok (byte_val b)
       | None => OutOfBounds
       end.

(** ** Counting loops

    [for (i = start; i < bound; i += step) body], with [i] a C [int] that
    the body does not assign.  [fuel] bounds the number of iterations. *)

Fixpoint for_loop {S : Type} (fuel : nat) (step : Z) (i bound : Z)
    (body : Z -> S -> result S) (s : S) : result S :=
  if i <? bound then
    match fuel with
    | O => OutOfFuel
    | Datatypes.S fuel' =>
        s' <- body i s ;;
        for_loop fuel' step (i + step)%int bound body s'
    end
  else Ok s.

(** ** Floating point interface *)

Class FloatOps (F : Type) : Type := {
  of_int : Z -> F;            (* (double)n, (float)n and the literals *)
  to_int : F -> Z;            (* (int)x *)
  fadd : F -> F -> F;
  fsub : F -> F -> F;
  fmul : F -> F -> F;
  fdiv : F -> F -> F;
  flt : F -> F -> bool;       (* x < y *)
  fgt : F -> F -> bool;       (* x > y *)
  feq : F -> F -> bool        (* x == y *)
}.

(** Exact rational reading of the floating point operations; the cast to
    [int] truncates toward zero.  ([Qdiv] by zero is 0; among the functions
    below only [otsu] with [Width * Height = 0] divides by zero.) *)
Definition Qlt_bool (x y : Q) : bool :=
  (Qnum x * Zpos (Qden y) <? Qnum y * Zpos (Qden x))%Z.

#[export] Instance Q_ops : FloatOps Q := {
  of_int := inject_Z;
  to_int := fun x => Z.quot (Qnum x) (Zpos (Qden x));
  fadd := Qplus;
  fsub := Qminus;
  fmul := Qmult;
  fdiv := Qdiv;
  flt := Qlt_bool;
  fgt := fun x y => Qlt_bool y x;
  feq := Qeq_bool
}.

(** ** The plugin object

    The data members of class [AutoThreshold]; the OpenGL handles
    ([m_extensions], [m_shader], the uniform locations) are left out. *)

Section Plugin.

Context {F : Type} `{FloatOps F}.

Record AutoThreshold : Type := {
  m_Threshold : F;
  m_UserThreshold : F;
  m_AutoThreshold : F;
  m_Smoothness : F;
  m_TwoTone : Z;
  m_Chroma : Z;
  m_Auto : Z;
  m_Red1 : F; m_Grn1 : F; m_Blu1 : F; m_Alf1 : F;
  m_Red2 : F; m_Grn2 : F; m_Blu2 : F; m_Alf2 : F;
  m_histogram : list Z
}.

(** A member function receives the object ([this]) and hands it back
    together with its return value. *)
Definition Method (A : Type) : Type := AutoThreshold -> A * AutoThreshold.

(** *** [gradient] *)

(** The body of the inner loop, at pixel pointer [lp]: the sums of the
    neighbours and the update of the two accumulators. *)
Definition gradient_pixel (buffer : list byte) (Width : Z) (lp : Z)
    (acc : F * F) : result (F * F) :=
  let '(sum_exy, sum_exy_fxy) := acc in
  (* Left *)
  let left := 0 in
  v <- peek buffer (lp - 4) ;; let left := (left + v)%int in
  v <- peek buffer (lp - 3) ;; let left := (left + v)%int in
  v <- peek buffer (lp - 2) ;; let left := (left + v)%int in
  (* Centre *)
  let mid := 0 in
  v <- peek buffer lp ;; let mid := (mid + v)%int in
  v <- peek buffer (lp + 1) ;; let mid := (mid + v)%int in
  v <- peek buffer (lp + 2) ;; let mid := (mid + v)%int in
  (* Right *)
  let right := 0 in
  v <- peek buffer (lp + 4) ;; let right := (right + v)%int in
  v <- peek buffer (lp + 5) ;; let right := (right + v)%int in
  v <- peek buffer (lp + 6) ;; let right := (right + v)%int in
  (* Top *)
  let top := 0 in
  v <- peek buffer (lp - (Width * 4)%int) ;; let top := (top + v)%int in
  v <- peek buffer (lp - (Width * 4)%int + 1) ;; let top := (top + v)%int in
  v <- peek buffer (lp - (Width * 4)%int + 2) ;; let top := (top + v)%int in
  (* Bot: the source adds the row below to [top], [bot] stays 0 *)
  let bot := 0 in
  v <- peek buffer (lp + (Width * 4)%int) ;; let top := (top + v)%int in
  v <- peek buffer (lp + (Width * 4)%int + 1) ;; let top := (top + v)%int in
  v <- peek buffer (lp + (Width * 4)%int + 2) ;; let top := (top + v)%int in
  (* calculate variance of neighbourhood *)
  let ex := Int.abs (left - right)%int in
  let ey := Int.abs (top - bot)%int in
  let exy := Int.MAX ex ey in
  let sum_exy := fadd sum_exy (of_int exy) in
  let sum_exy_fxy := fadd sum_exy_fxy (of_int (exy * mid)%int) in
  Ok (sum_exy, sum_exy_fxy).

Definition gradient_line (buffer : list byte) (Width : Z) (i : Z)
    (acc : F * F) : result (F * F) :=
  let linePtr := (i * (Width * 4)%int)%int in
  for_loop (Z.to_nat Width) 4 4 (Width - 4)%int
    (fun j acc => let lp := linePtr + (j * 4)%int in
                  gradient_pixel buffer Width lp acc)
    acc.

Definition gradient (buffer : list byte) (Width Height : Z)
    : Method (result F) := fun this =>
  (* sum_exy = 0, sum_exy_fxy = 0 *)
  (' (sum_exy, sum_exy_fxy) <-
      for_loop (Z.to_nat Height) 4 4 (Height - 4)%int
        (gradient_line buffer Width) (of_int 0, of_int 0) ;;
   (* Calculate the threshold *)
   let sum_exy := fadd sum_exy (of_int 1) in
   let t := to_int (fdiv sum_exy_fxy sum_exy) in
   Ok (fdiv (of_int t) (of_int (3 * 256)%int)),
   this).

(** *** [histo] *)

(** [histogram[k]++] on an array of [unsigned short]. *)
Fixpoint incr_at (k : nat) (histogram : list Z) : result (list Z) :=
  match histogram, k with
  | [], _ => OutOfBounds
  | h :: rest, O => Ok (UShort.incr h :: rest)
  | h :: rest, Datatypes.S k' =>
      rest' <- incr_at k' rest ;; Ok (h :: rest')
  end.

Definition histo_pixel (buffer : list byte) (lp : Z) (histogram : list Z)
    : result (list Z) :=
  v <- peek buffer lp ;; let k := v in               (* R *)
  v <- peek buffer (lp + 1) ;; let k := (k + v)%int in (* G *)
  v <- peek buffer (lp + 2) ;; let k := (k + v)%int in (* B *)
  let idx := (k / 3)%int in
  if idx <? 0 then OutOfBounds else incr_at (Z.to_nat idx) histogram.

Definition histo_line (buffer : list byte) (Width : Z) (i : Z)
    (histogram : list Z) : result (list Z) :=
  let linePtr := (i * (Width * 4)%int)%int in
  for_loop (Z.to_nat Width) 1 0 Width
    (fun j histogram => let lp := linePtr + (j * 4)%int in
                        histo_pixel buffer lp histogram)
    histogram.

(** The out-parameter [histogram] is cleared by [memset] first, so only
    its final contents are modelled: they are the value returned. *)
Definition histo (buffer : list byte) (Width Height : Z)
    : Method (result (list Z)) := fun this =>
  (let histogram := repeat 0 256 in
   for_loop (Z.to_nat Height) 1 0 Height (histo_line buffer Width)
     histogram,
   this).

(** *** [entropySplit] *)

(** [a[0] = x[0]; for (i = 1; ...) a[i] = a[i-1] + x[i]]. *)
Fixpoint running_sum (prev : F) (x : list F) : list F :=
  match x with
  | [] => []
  | xi :: rest => let ai := fadd prev xi in ai :: running_sum ai rest
  end.

Definition cumulative (x : list F) : list F :=
  match x with
  | [] => []
  | x0 :: rest => x0 :: running_sum x0 rest
  end.

Section Entropy.

(** [log] of the C mathematical library. *)
Variable log : F -> F.

(** [hh -= p / pt * log(p / pt)] for the bins of [bins] above [epsilon]. *)
Definition entropy_part (epsilon pt : F) (bins : list F) : F :=
  fold_left
    (fun hh p =>
       if fgt p epsilon
       then fsub hh (fmul (fdiv p pt) (log (fdiv p pt)))
       else hh)
    bins (of_int 0).

Definition entropySplit (histogram : list Z) : Method Z := fun this =>
  ((* Build floating point histogram *)
   let hist := map (fun i => of_int (nth i histogram 0)) (seq 0 256) in
   (* Normalize histogram *)
   let sum := fold_left fadd hist (of_int 0) in
   if feq sum (of_int 0) then 0
   else
     let normalizedHist := map (fun h => fdiv h sum) hist in
     let pT := cumulative normalizedHist in
     (* Entropy for black and white parts of the histogram *)
     let epsilon := of_int 0 in
     let hB_hW :=
       map (fun t =>
              let pTt := nth t pT (of_int 0) in
              let hB :=
                if fgt pTt epsilon
                then entropy_part epsilon pTt
                       (firstn (Datatypes.S t) normalizedHist)
                else of_int 0 in
              let pTW := fsub (of_int 1) pTt in
              let hW :=
                if fgt pTW epsilon
                then entropy_part epsilon pTW
                       (skipn (Datatypes.S t) normalizedHist)
                else of_int 0 in
              (hB, hW))
           (seq 0 256) in
     let dj t := let '(hB, hW) := nth t hB_hW (of_int 0, of_int 0) in
                 fadd hB hW in
     (* Find histogram index with maximum entropy *)
     let '(djMax, tMax) :=
       fold_left
         (fun '(djMax, tMax) t =>
            if fgt (dj t) djMax then (dj t, Z.of_nat t) else (djMax, tMax))
         (seq 1 255) (dj 0%nat, 0) in
     tMax,
   this).

End Entropy.

(** *** [otsu] *)

(** [omega[i] = omega[i-1] + prob[i]; myu[i] = myu[i-1] + i*prob[i]]
    for the levels from [i] on. *)
Fixpoint otsu_moments (i : Z) (omega_prev myu_prev : F) (prob : list F)
    : list (F * F) :=
  match prob with
  | [] => []
  | p :: rest =>
      let omega_i := fadd omega_prev p in
      let myu_i := fadd myu_prev (fmul (of_int i) p) in
      (omega_i, myu_i) :: otsu_moments (i + 1) omega_i myu_i rest
  end.

(** [pow(x, 2)]. *)
Definition pow2 (x : F) : F := fmul x x.

(** One step of the sigma maximization, at level [i]. *)
Definition otsu_step (omega_myu : list (F * F)) (st : Z * F) (i : nat)
    : Z * F :=
  let '(threshold, max_sigma) := st in
  let '(omega_i, myu_i) := nth i omega_myu (of_int 0, of_int 0) in
  let '(_, myu_255) := nth 255 omega_myu (of_int 0, of_int 0) in
  let sigma_i :=
    if negb (feq omega_i (of_int 0)) && negb (feq omega_i (of_int 1))
    then fdiv (pow2 (fsub (fmul myu_255 omega_i) myu_i))
              (fmul omega_i (fsub (of_int 1) omega_i))
    else of_int 0 in
  if fgt sigma_i max_sigma then (Z.of_nat i, sigma_i)
  else (threshold, max_sigma).

Definition otsu (Width Height : Z) (hist : list Z) : Method Z := fun this =>
  ((* calculation of probability density *)
   let prob :=
     map (fun i => fdiv (of_int (nth i hist 0)) (of_int (Width * Height)%int))
         (seq 0 256) in
   (* omega & myu generation *)
   let omega_myu :=
     match prob with
     | [] => []
     | prob_0 :: rest =>
         (prob_0, of_int 0) :: otsu_moments 1 prob_0 (of_int 0) rest
     end in
   (* sigma maximization *)
   let '(threshold, max_sigma) :=
     fold_left (otsu_step omega_myu) (seq 0 255) (0, of_int 0) in
   threshold,
   this).

(** *** [ProcessOpenGL] *)

Inductive FFResult : Type := FF_SUCCESS | FF_FAIL.

(** An input texture: its size and the RGBA bytes that [LoadFromTexture]
    reads back from it. *)
Record FFGLTextureStruct : Type := {
  Width : Z;
  Height : Z;
  pixels : list byte
}.

Definition set_Threshold (t : F) (this : AutoThreshold) : AutoThreshold :=
  {| m_Threshold := t;
     m_UserThreshold := m_UserThreshold this;
     m_AutoThreshold := m_AutoThreshold this;
     m_Smoothness := m_Smoothness this;
     m_TwoTone := m_TwoTone this; m_Chroma := m_Chroma this;
     m_Auto := m_Auto this;
     m_Red1 := m_Red1 this; m_Grn1 := m_Grn1 this;
     m_Blu1 := m_Blu1 this; m_Alf1 := m_Alf1 this;
     m_Red2 := m_Red2 this; m_Grn2 := m_Grn2 this;
     m_Blu2 := m_Blu2 this; m_Alf2 := m_Alf2 this;
     m_histogram := m_histogram this |}.

Definition set_AutoThreshold (a : F) (this : AutoThreshold)
    : AutoThreshold :=
  {| m_Threshold := m_Threshold this;
     m_UserThreshold := m_UserThreshold this;
     m_AutoThreshold := a;
     m_Smoothness := m_Smoothness this;
     m_TwoTone := m_TwoTone this; m_Chroma := m_Chroma this;
     m_Auto := m_Auto this;
     m_Red1 := m_Red1 this; m_Grn1 := m_Grn1 this;
     m_Blu1 := m_Blu1 this; m_Alf1 := m_Alf1 this;
     m_Red2 := m_Red2 this; m_Grn2 := m_Grn2 this;
     m_Blu2 := m_Blu2 this; m_Alf2 := m_Alf2 this;
     m_histogram := m_histogram this |}.

(** The threshold of this frame: the estimate of the last frame modified
    by the user entry, then limited to 0..1. *)
Definition frame_threshold (this : AutoThreshold) : F :=
  let t :=
    if negb (m_Auto this =? 0)
    then fmul (fmul (m_AutoThreshold this) (m_UserThreshold this)) (of_int 2)
    else m_UserThreshold this in
  let t := if flt t (of_int 0) then of_int 0 else t in
  let t := if fgt t (of_int 1) then of_int 1 else t in
  t.

Definition ProcessOpenGL (inputTextures : list (option FFGLTextureStruct))
    : Method (result FFResult) := fun this =>
  match inputTextures with
  | [] => (Ok FF_FAIL, this)
  | None :: _ => (Ok FF_FAIL, this)
  | Some Texture :: _ =>
      let this := set_Threshold (frame_threshold this) this in
      (* the quad is drawn with [m_Threshold] as the shader's Threshold *)
      if negb (m_Auto this =? 0) then
        (* Load the buffer with the texture pixels *)
        let buffer := pixels Texture in
        (* Gradient method *)
        let '(r, this) :=
          gradient buffer (Width Texture) (Height Texture) this in
        match r with
        | Ok a => (Ok FF_SUCCESS, set_AutoThreshold a this)
        | OutOfBounds => (OutOfBounds, this)
        | OutOfFuel => (OutOfFuel, this)
        end
      else (Ok FF_SUCCESS, this)
  end.

End Plugin.

Arguments AutoThreshold F : clear implicits.
Arguments Method F A : clear implicits.

(** * Specification-level view of a frame *)

(** The byte at offset [off], the R+G+B sum of the pixel that starts at
    [off], and the offset of the pixel in row [i], column [j]. *)
Definition byte_at (buffer : list byte) (off : Z) : Z :=
  byte_val (nth (Z.to_nat off) buffer x00).

Definition rgb (buffer : list byte) (off : Z) : Z :=
  byte_at buffer off + byte_at buffer (off + 1) + byte_at buffer (off + 2).

Definition pixel_ptr (Width i j : Z) : Z := 4 * (i * Width + j).

(** A well-formed frame: positive dimensions, [Width*Height*4] bytes, a
    byte count that a C [int] holds. *)
Definition frame (buffer : list byte) (Width Height : Z) : Prop :=
  0 < Width /\ 0 < Height /\
  4 * Width * Height <= Int.max_int /\
  Z.of_nat (length buffer) = 4 * Width * Height.

(** [n] indices from [i] on, [step] apart. *)
Fixpoint iota (step : Z) (n : nat) (i : Z) : list Z :=
  match n with
  | O => []
  | S n' => i :: iota step n' (i + step)
  end.

(** The rows (columns) that [gradient] samples in a frame of [n] rows
    (columns): 4, 8, 12, ... below [n - 4]. *)
Definition samples (n : Z) : list Z := iota 4 (Z.to_nat ((n - 5) / 4)) 4.

(** Running a body over a list of indices. *)
Fixpoint foldM {S : Type} (body : Z -> S -> result S) (l : list Z) (s : S)
    : result S :=
  match l with
  | [] => Ok s
  | i :: l' => s' <- body i s ;; foldM body l' s'
  end.

Definition sum_over {A : Type} (f : A -> Z) (l : list A) : Z :=
  fold_right (fun a s => f a + s) 0 l.

(** The quantities [gradient] computes at the sampled pixel of row [i],
    column [j]: the R+G+B sums of the pixel to its left, of the pixel to
    its right and of the pixel itself; [top_of] is the source's variable
    [top], which receives the sum of the pixel above and then the sum of
    the pixel below, and [bot_of] is its variable [bot], which stays 0. *)
Section Neighbourhood.

Variables (buffer : list byte) (Width : Z).

Definition left_of (p : Z * Z) : Z :=
  rgb buffer (pixel_ptr Width (fst p) (snd p - 1)).
Definition right_of (p : Z * Z) : Z :=
  rgb buffer (pixel_ptr Width (fst p) (snd p + 1)).
Definition mid_of (p : Z * Z) : Z :=
  rgb buffer (pixel_ptr Width (fst p) (snd p)).
Definition top_of (p : Z * Z) : Z :=
  rgb buffer (pixel_ptr Width (fst p - 1) (snd p))
  + rgb buffer (pixel_ptr Width (fst p + 1) (snd p)).
Definition bot_of (p : Z * Z) : Z := 0.

Definition exy_of (p : Z * Z) : Z :=
  Z.max (Z.abs (left_of p - right_of p)) (Z.abs (top_of p - bot_of p)).

End Neighbourhood.

(** The sampled pixels, row by row, and the two sums over them. *)
Definition sample_points (Width Height : Z) : list (Z * Z) :=
  list_prod (samples Height) (samples Width).

Definition total_exy (buffer : list byte) (Width Height : Z) : Z :=
  sum_over (exy_of buffer Width) (sample_points Width Height).

Definition total_exy_fxy (buffer : list byte) (Width Height : Z) : Z :=
  sum_over (fun p => exy_of buffer Width p * mid_of buffer Width p)
           (sample_points Width Height).

(** The value the claimed formula assigns to a frame: edge terms
    [max(|left - right|, |top - bot|)] taken from the pixels [dist] columns
    to the left and right and [dist] rows above and below, and the quotient
    of the two sums divided by [3 * 256] without any rounding. *)
Definition exy_claimed (dist : Z) (buffer : list byte) (Width : Z)
    (p : Z * Z) : Z :=
  let '(i, j) := p in
  let left := rgb buffer (pixel_ptr Width i (j - dist)) in
  let right := rgb buffer (pixel_ptr Width i (j + dist)) in
  let top := rgb buffer (pixel_ptr Width (i - dist) j) in
  let bot := rgb buffer (pixel_ptr Width (i + dist) j) in
  Z.max (Z.abs (left - right)) (Z.abs (top - bot)).

Definition gradient_claimed (dist : Z) (buffer : list byte)
    (Width Height : Z) : Q :=
  let sum_exy :=
    sum_over (exy_claimed dist buffer Width) (sample_points Width Height) in
  let sum_exy_fxy :=
    sum_over (fun p => exy_claimed dist buffer Width p * mid_of buffer Width p)
             (sample_points Width Height) in
  ((inject_Z sum_exy_fxy / (inject_Z sum_exy + 1)) / inject_Z (3 * 256))%Q.

(** The gray levels [floor((R+G+B)/3)] of the pixels of a buffer, in
    order, and the table of their counts as 16-bit counters hold them. *)
Fixpoint gray_levels (buffer : list byte) : list Z :=
  match buffer with
  | r :: g :: b :: _ :: rest =>
      (byte_val r + byte_val g + byte_val b) / 3 :: gray_levels rest
  | _ => []
  end.

Definition count_level (g : Z) (levels : list Z) : Z :=
  Z.of_nat (count_occ Z.eq_dec levels g).

Definition tally (levels : list Z) : list Z :=
  map (fun g => UShort.wrap (count_level (Z.of_nat g) levels)) (seq 0 256).

(** The gray level of pixel number [p]. *)
Definition level_at (buffer : list byte) (p : Z) : Z := rgb buffer (4 * p) / 3.

(** The pixel numbers of row [i]. *)
Definition row_pixels (Width : Z) (i : Z) : list Z :=
  iota 1 (Z.to_nat Width) (i * Width).

(** [clamp(x, lo, hi)]. *)
Definition clamp (x lo hi : Q) : Q := Qmin (Qmax x lo) hi.

(** ** Concrete objects and frames *)

(** The object after its constructor and [InitGL]; the members that
    neither of them sets ([m_histogram]) are given zeros. *)
Definition initial_plugin : AutoThreshold Q :=
  {| m_Threshold := 0%Q; m_UserThreshold := 0%Q; m_AutoThreshold := 0%Q;
     m_Smoothness := 0%Q;
     m_TwoTone := 0; m_Chroma := 0; m_Auto := 0;
     m_Red1 := 1%Q; m_Grn1 := (82 # 100)%Q; m_Blu1 := 1%Q; m_Alf1 := 1%Q;
     m_Red2 := (93 # 100)%Q; m_Grn2 := 0%Q; m_Blu2 := 0%Q; m_Alf2 := 1%Q;
     m_histogram := repeat 0 256 |}.

(** An opaque pixel and [n] copies of a pixel. *)
Definition pixel (r g b : byte) : list byte := [r; g; b; xff].

Fixpoint solid (n : nat) (px : list byte) : list byte :=
  match n with
  | O => []
  | S n' => px ++ solid n' px
  end.

Definition black : list byte := pixel x00 x00 x00.
Definition white : list byte := pixel xff xff xff.
Definition dim : list byte := pixel x01 x00 x00.

(** A 9x9 frame, black except for three pixels of row 4 with R = 1: the
    columns 0, 3 and 4.  Its only sampled pixel is row 4, column 4. *)
Definition frame9 : list byte :=
  solid 36 black
  ++ dim ++ solid 2 black ++ dim ++ dim ++ solid 4 black
  ++ solid 36 black.


Definition half256 : list byte :=
  concat (repeat (solid 128 black ++ solid 128 white) 256).

(** The histogram with 32768 pixels at level 0 and 32768 at level 255. *)
Definition hist_bw : list Z := 32768 :: repeat 0 254 ++ [32768].

(** The all-mid-gray 64x64 frame. *)
Definition gray64 : list byte := solid (64 * 64) (pixel x80 x80 x80).

(** * The parameter interface and the life of the object *)

(** The parameter numbers. *)
Definition FFPARAM_Threshold : Z := 0.
Definition FFPARAM_Smoothness : Z := 1.
Definition FFPARAM_Auto : Z := 2.
Definition FFPARAM_TwoTone : Z := 3.
Definition FFPARAM_Chroma : Z := 4.
Definition FFPARAM_Red1 : Z := 5.
Definition FFPARAM_Grn1 : Z := 6.
Definition FFPARAM_Blu1 : Z := 7.
Definition FFPARAM_Alf1 : Z := 8.
Definition FFPARAM_Red2 : Z := 9.
Definition FFPARAM_Grn2 : Z := 10.
Definition FFPARAM_Blu2 : Z := 11.
Definition FFPARAM_Alf2 : Z := 12.

(** The argument of [SetParameter]: two [DWORD]s. *)
Record SetParameterStruct : Type := {
  ParameterNumber : Z;
  NewParameterValue : Z
}.

Section Parameters.

Context {F : Type} `{FloatOps F}.

(** The casts [*((float * )(unsigned)&dw)]: the 32 bits of a [DWORD] read
    as a [float], and the bits of a [float] stored into a [DWORD]. *)
Variable float_of_bits : Z -> F.
Variable bits_of_float : F -> Z.

(** [FF_FAIL] as the [DWORD] that [GetParameter] returns; the constant is
    declared in the host's header. *)
Variable FF_FAIL_dword : Z.

Definition set_UserThreshold (v : F) (this : AutoThreshold F)
    : AutoThreshold F :=
  {| m_Threshold := m_Threshold this;
     m_UserThreshold := v;
     m_AutoThreshold := m_AutoThreshold this;
     m_Smoothness := m_Smoothness this;
     m_TwoTone := m_TwoTone this;
     m_Chroma := m_Chroma this;
     m_Auto := m_Auto this;
     m_Red1 := m_Red1 this;
     m_Grn1 := m_Grn1 this;
     m_Blu1 := m_Blu1 this;
     m_Alf1 := m_Alf1 this;
     m_Red2 := m_Red2 this;
     m_Grn2 := m_Grn2 this;
     m_Blu2 := m_Blu2 this;
     m_Alf2 := m_Alf2 this;
     m_histogram := m_histogram this |}.

Definition set_Smoothness (v : F) (this : AutoThreshold F)
    : AutoThreshold F :=
  {| m_Threshold := m_Threshold this;
     m_UserThreshold := m_UserThreshold this;
     m_AutoThreshold := m_AutoThreshold this;
     m_Smoothness := v;
     m_TwoTone := m_TwoTone this;
     m_Chroma := m_Chroma this;
     m_Auto := m_Auto this;
     m_Red1 := m_Red1 this;
     m_Grn1 := m_Grn1 this;
     m_Blu1 := m_Blu1 this;
     m_Alf1 := m_Alf1 this;
     m_Red2 := m_Red2 this;
     m_Grn2 := m_Grn2 this;
     m_Blu2 := m_Blu2 this;
     m_Alf2 := m_Alf2 this;
     m_histogram := m_histogram this |}.

Definition set_Auto (v : Z) (this : AutoThreshold F)
    : AutoThreshold F :=
  {| m_Threshold := m_Threshold this;
     m_UserThreshold := m_UserThreshold this;
     m_AutoThreshold := m_AutoThreshold this;
     m_Smoothness := m_Smoothness this;
     m_TwoTone := m_TwoTone this;
     m_Chroma := m_Chroma this;
     m_Auto := v;
     m_Red1 := m_Red1 this;
     m_Grn1 := m_Grn1 this;
     m_Blu1 := m_Blu1 this;
     m_Alf1 := m_Alf1 this;
     m_Red2 := m_Red2 this;
     m_Grn2 := m_Grn2 this;
     m_Blu2 := m_Blu2 this;
     m_Alf2 := m_Alf2 this;
     m_histogram := m_histogram this |}.

Definition set_TwoTone (v : Z) (this : AutoThreshold F)
    : AutoThreshold F :=
  {| m_Threshold := m_Threshold this;
     m_UserThreshold := m_UserThreshold this;
     m_AutoThreshold := m_AutoThreshold this;
     m_Smoothness := m_Smoothness this;
     m_TwoTone := v;
     m_Chroma := m_Chroma this;
     m_Auto := m_Auto this;
     m_Red1 := m_Red1 this;
     m_Grn1 := m_Grn1 this;
     m_Blu1 := m_Blu1 this;
     m_Alf1 := m_Alf1 this;
     m_Red2 := m_Red2 this;
     m_Grn2 := m_Grn2 this;
     m_Blu2 := m_Blu2 this;
     m_Alf2 := m_Alf2 this;
     m_histogram := m_histogram this |}.

Definition set_Chroma (v : Z) (this : AutoThreshold F)
    : AutoThreshold F :=
  {| m_Threshold := m_Threshold this;
     m_UserThreshold := m_UserThreshold this;
     m_AutoThreshold := m_AutoThreshold this;
     m_Smoothness := m_Smoothness this;
     m_TwoTone := m_TwoTone this;
     m_Chroma := v;
     m_Auto := m_Auto this;
     m_Red1 := m_Red1 this;
     m_Grn1 := m_Grn1 this;
     m_Blu1 := m_Blu1 this;
     m_Alf1 := m_Alf1 this;
     m_Red2 := m_Red2 this;
     m_Grn2 := m_Grn2 this;
     m_Blu2 := m_Blu2 this;
     m_Alf2 := m_Alf2 this;
     m_histogram := m_histogram this |}.

Definition set_Red1 (v : F) (this : AutoThreshold F)
    : AutoThreshold F :=
  {| m_Threshold := m_Threshold this;
     m_UserThreshold := m_UserThreshold this;
     m_AutoThreshold := m_AutoThreshold this;
     m_Smoothness := m_Smoothness this;
     m_TwoTone := m_TwoTone this;
     m_Chroma := m_Chroma this;
     m_Auto := m_Auto this;
     m_Red1 := v;
     m_Grn1 := m_Grn1 this;
     m_Blu1 := m_Blu1 this;
     m_Alf1 := m_Alf1 this;
     m_Red2 := m_Red2 this;
     m_Grn2 := m_Grn2 this;
     m_Blu2 := m_Blu2 this;
     m_Alf2 := m_Alf2 this;
     m_histogram := m_histogram this |}.

Definition set_Grn1 (v : F) (this : AutoThreshold F)
    : AutoThreshold F :=
  {| m_Threshold := m_Threshold this;
     m_UserThreshold := m_UserThreshold this;
     m_AutoThreshold := m_AutoThreshold this;
     m_Smoothness := m_Smoothness this;
     m_TwoTone := m_TwoTone this;
     m_Chroma := m_Chroma this;
     m_Auto := m_Auto this;
     m_Red1 := m_Red1 this;
     m_Grn1 := v;
     m_Blu1 := m_Blu1 this;
     m_Alf1 := m_Alf1 this;
     m_Red2 := m_Red2 this;
     m_Grn2 := m_Grn2 this;
     m_Blu2 := m_Blu2 this;
     m_Alf2 := m_Alf2 this;
     m_histogram := m_histogram this |}.

Definition set_Blu1 (v : F) (this : AutoThreshold F)
    : AutoThreshold F :=
  {| m_Threshold := m_Threshold this;
     m_UserThreshold := m_UserThreshold this;
     m_AutoThreshold := m_AutoThreshold this;
     m_Smoothness := m_Smoothness this;
     m_TwoTone := m_TwoTone this;
     m_Chroma := m_Chroma this;
     m_Auto := m_Auto this;
     m_Red1 := m_Red1 this;
     m_Grn1 := m_Grn1 this;
     m_Blu1 := v;
     m_Alf1 := m_Alf1 this;
     m_Red2 := m_Red2 this;
     m_Grn2 := m_Grn2 this;
     m_Blu2 := m_Blu2 this;
     m_Alf2 := m_Alf2 this;
     m_histogram := m_histogram this |}.

Definition set_Alf1 (v : F) (this : AutoThreshold F)
    : AutoThreshold F :=
  {| m_Threshold := m_Threshold this;
     m_UserThreshold := m_UserThreshold this;
     m_AutoThreshold := m_AutoThreshold this;
     m_Smoothness := m_Smoothness this;
     m_TwoTone := m_TwoTone this;
     m_Chroma := m_Chroma this;
     m_Auto := m_Auto this;
     m_Red1 := m_Red1 this;
     m_Grn1 := m_Grn1 this;
     m_Blu1 := m_Blu1 this;
     m_Alf1 := v;
     m_Red2 := m_Red2 this;
     m_Grn2 := m_Grn2 this;
     m_Blu2 := m_Blu2 this;
     m_Alf2 := m_Alf2 this;
     m_histogram := m_histogram this |}.

Definition set_Red2 (v : F) (this : AutoThreshold F)
    : AutoThreshold F :=
  {| m_Threshold := m_Threshold this;
     m_UserThreshold := m_UserThreshold this;
     m_AutoThreshold := m_AutoThreshold this;
     m_Smoothness := m_Smoothness this;
     m_TwoTone := m_TwoTone this;
     m_Chroma := m_Chroma this;
     m_Auto := m_Auto this;
     m_Red1 := m_Red1 this;
     m_Grn1 := m_Grn1 this;
     m_Blu1 := m_Blu1 this;
     m_Alf1 := m_Alf1 this;
     m_Red2 := v;
     m_Grn2 := m_Grn2 this;
     m_Blu2 := m_Blu2 this;
     m_Alf2 := m_Alf2 this;
     m_histogram := m_histogram this |}.

Definition set_Grn2 (v : F) (this : AutoThreshold F)
    : AutoThreshold F :=
  {| m_Threshold := m_Threshold this;
     m_UserThreshold := m_UserThreshold this;
     m_AutoThreshold := m_AutoThreshold this;
     m_Smoothness := m_Smoothness this;
     m_TwoTone := m_TwoTone this;
     m_Chroma := m_Chroma this;
     m_Auto := m_Auto this;
     m_Red1 := m_Red1 this;
     m_Grn1 := m_Grn1 this;
     m_Blu1 := m_Blu1 this;
     m_Alf1 := m_Alf1 this;
     m_Red2 := m_Red2 this;
     m_Grn2 := v;
     m_Blu2 := m_Blu2 this;
     m_Alf2 := m_Alf2 this;
     m_histogram := m_histogram this |}.

Definition set_Blu2 (v : F) (this : AutoThreshold F)
    : AutoThreshold F :=
  {| m_Threshold := m_Threshold this;
     m_UserThreshold := m_UserThreshold this;
     m_AutoThreshold := m_AutoThreshold this;
     m_Smoothness := m_Smoothness this;
     m_TwoTone := m_TwoTone this;
     m_Chroma := m_Chroma this;
     m_Auto := m_Auto this;
     m_Red1 := m_Red1 this;
     m_Grn1 := m_Grn1 this;
     m_Blu1 := m_Blu1 this;
     m_Alf1 := m_Alf1 this;
     m_Red2 := m_Red2 this;
     m_Grn2 := m_Grn2 this;
     m_Blu2 := v;
     m_Alf2 := m_Alf2 this;
     m_histogram := m_histogram this |}.

Definition set_Alf2 (v : F) (this : AutoThreshold F)
    : AutoThreshold F :=
  {| m_Threshold := m_Threshold this;
     m_UserThreshold := m_UserThreshold this;
     m_AutoThreshold := m_AutoThreshold this;
     m_Smoothness := m_Smoothness this;
     m_TwoTone := m_TwoTone this;
     m_Chroma := m_Chroma this;
     m_Auto := m_Auto this;
     m_Red1 := m_Red1 this;
     m_Grn1 := m_Grn1 this;
     m_Blu1 := m_Blu1 this;
     m_Alf1 := m_Alf1 this;
     m_Red2 := m_Red2 this;
     m_Grn2 := m_Grn2 this;
     m_Blu2 := m_Blu2 this;
     m_Alf2 := v;
     m_histogram := m_histogram this |}.

Definition SetParameter (pParam : option SetParameterStruct)
    : Method F FFResult := fun this =>
  match pParam with
  | None => (FF_FAIL, this)
  | Some p =>
      let n := ParameterNumber p in
      let v := NewParameterValue p in
      if n =? FFPARAM_Threshold then
        (FF_SUCCESS, set_UserThreshold (float_of_bits v) this)
      else if n =? FFPARAM_Smoothness then
        (FF_SUCCESS, set_Smoothness (float_of_bits v) this)
      else if n =? FFPARAM_Auto then
        (FF_SUCCESS, set_Auto (if v >? 0 then 1 else 0) this)
      else if n =? FFPARAM_TwoTone then
        (FF_SUCCESS, set_TwoTone (if v >? 0 then 1 else 0) this)
      else if n =? FFPARAM_Chroma then
        (FF_SUCCESS, set_Chroma (if v >? 0 then 1 else 0) this)
      else if n =? FFPARAM_Red1 then
        (FF_SUCCESS, set_Red1 (float_of_bits v) this)
      else if n =? FFPARAM_Grn1 then
        (FF_SUCCESS, set_Grn1 (float_of_bits v) this)
      else if n =? FFPARAM_Blu1 then
        (FF_SUCCESS, set_Blu1 (float_of_bits v) this)
      else if n =? FFPARAM_Alf1 then
        (FF_SUCCESS, set_Alf1 (float_of_bits v) this)
      else if n =? FFPARAM_Red2 then
        (FF_SUCCESS, set_Red2 (float_of_bits v) this)
      else if n =? FFPARAM_Grn2 then
        (FF_SUCCESS, set_Grn2 (float_of_bits v) this)
      else if n =? FFPARAM_Blu2 then
        (FF_SUCCESS, set_Blu2 (float_of_bits v) this)
      else if n =? FFPARAM_Alf2 then
        (FF_SUCCESS, set_Alf2 (float_of_bits v) this)
      else (FF_FAIL, this)
  end.

Definition GetParameter (dwIndex : Z) : Method F Z := fun this =>
  (if dwIndex =? FFPARAM_Threshold then bits_of_float (m_UserThreshold this)
   else if dwIndex =? FFPARAM_Smoothness then bits_of_float (m_Smoothness this)
   else if dwIndex =? FFPARAM_Auto then bits_of_float (of_int (m_Auto this))
   else if dwIndex =? FFPARAM_TwoTone
   then bits_of_float (of_int (m_TwoTone this))
   else if dwIndex =? FFPARAM_Chroma then bits_of_float (of_int (m_Chroma this))
   else if dwIndex =? FFPARAM_Red1 then bits_of_float (m_Red1 this)
   else if dwIndex =? FFPARAM_Grn1 then bits_of_float (m_Grn1 this)
   else if dwIndex =? FFPARAM_Blu1 then bits_of_float (m_Blu1 this)
   else if dwIndex =? FFPARAM_Alf1 then bits_of_float (m_Alf1 this)
   else if dwIndex =? FFPARAM_Red2 then bits_of_float (m_Red2 this)
   else if dwIndex =? FFPARAM_Grn2 then bits_of_float (m_Grn2 this)
   else if dwIndex =? FFPARAM_Blu2 then bits_of_float (m_Blu2 this)
   else if dwIndex =? FFPARAM_Alf2 then bits_of_float (m_Alf2 this)
   else FF_FAIL_dword,
   this).

(** [InitGL]: [extensions] tells whether the OpenGL features it asks for
    are there; the shader and its uniform locations are not modelled. *)
Definition InitGL (extensions : bool) : Method F FFResult := fun this =>
  if negb extensions then (FF_FAIL, this)
  else
    let this := set_Threshold (of_int 0) this in
    let this := set_UserThreshold (of_int 0) this in
    let this := set_AutoThreshold (of_int 0) this in
    (FF_SUCCESS, this).

(** The calls a host makes on the object, and the object after a sequence
    of them. *)
Inductive call : Type :=
| CallInitGL (extensions : bool)
| CallSetParameter (pParam : option SetParameterStruct)
| CallGetParameter (dwIndex : Z)
| CallProcessOpenGL (inputTextures : list (option FFGLTextureStruct)).

Definition after_call (c : call) (this : AutoThreshold F) : AutoThreshold F :=
  match c with
  | CallInitGL extensions => snd (InitGL extensions this)
  | CallSetParameter pParam => snd (SetParameter pParam this)
  | CallGetParameter dwIndex => snd (GetParameter dwIndex this)
  | CallProcessOpenGL inputTextures => snd (ProcessOpenGL inputTextures this)
  end.

Definition after_calls (calls : list call) (this : AutoThreshold F)
    : AutoThreshold F :=
  fold_left (fun this c => after_call c this) calls this.

End Parameters.

(** The constructor: the members it assigns, over an object whose other
    members ([m_Threshold], [m_AutoThreshold], [m_histogram]) hold whatever
    the memory held. *)
Definition constructor (memory : AutoThreshold Q) : AutoThreshold Q :=
  {| m_Threshold := m_Threshold memory;
     m_UserThreshold := (5 # 10)%Q;
     m_AutoThreshold := m_AutoThreshold memory;
     m_Smoothness := 0%Q;
     m_TwoTone := 0; m_Chroma := 0; m_Auto := 0;
     m_Red1 := 1%Q; m_Grn1 := (82 # 100)%Q; m_Blu1 := 1%Q; m_Alf1 := 1%Q;
     m_Red2 := (93 # 100)%Q; m_Grn2 := 0%Q; m_Blu2 := 0%Q; m_Alf2 := 1%Q;
     m_histogram := m_histogram memory |}.

(** The textures of a call are well-formed frames. *)
Definition texture_ok (tex : FFGLTextureStruct) : Prop :=
  frame (pixels tex) (Width tex) (Height tex).

Definition call_ok (c : call) : Prop :=
  match c with
  | CallProcessOpenGL (Some tex :: _) => texture_ok tex
  | _ => True
  end.

(** A buffer with the alpha byte of every pixel replaced by [a]. *)
Fixpoint with_alpha (a : byte) (buffer : list byte) : list byte :=
  match buffer with
  | r :: g :: b :: _ :: rest => r :: g :: b :: a :: with_alpha a rest
  | rest => rest
  end.

(** A 9x9 frame as a texture. *)
Definition texture9 : FFGLTextureStruct :=
  {| Width := 9; Height := 9; pixels := frame9 |}.

(** The object in automatic mode with the user threshold at one half. *)
Definition auto_plugin : AutoThreshold Q :=
  set_Auto 1 (set_UserThreshold (1 # 2)%Q initial_plugin).

(** A call that is not [SetParameter] on the Threshold parameter. *)
Definition keeps_user_threshold (c : call) : Prop :=
  match c with
  | CallSetParameter (Some p) => ParameterNumber p <> FFPARAM_Threshold
  | _ => True
  end.

(** A stand-in for the two casts, which keeps the 32 bits of a float as a
    number; it is used where a statement is tried on concrete values. *)
Definition number_of_bits (d : Z) : Q := inject_Z d.
Definition bits_of_number (x : Q) : Z := Qnum x.

(** * The fragment shader

    The GLSL program of [fragmentShaderCode], with its [float]s read as
    exact rationals like those of the estimators. *)

From Stdlib Require Import Qround Lqa.

Module Shader.

Record vec3 : Type := { x : Q; y : Q; z : Q }.
Record vec4 : Type := { r : Q; g : Q; b : Q; a : Q }.

(** The uniforms that [ProcessOpenGL] hands to the program. *)
Record uniforms : Type := {
  Threshold : Q;
  Smoothness : Q;
  TwoTone : Z;
  Chroma : Z;
  Red1 : Q; Grn1 : Q; Blu1 : Q;
  Red2 : Q; Grn2 : Q; Blu2 : Q;
  Alf1 : Q; Alf2 : Q
}.

(** The built-ins [smoothstep] and [dot] of GLSL; [smoothstep] is
    specified for [edge0 < edge1] only. *)
Definition smoothstep (edge0 edge1 v : Q) : Q :=
  let t := clamp ((v - edge0) / (edge1 - edge0)) 0 1 in
  (t * t * (3 - 2 * t))%Q.

Definition dot (u v : vec4) : Q :=
  (r u * r v + g u * g v + b u * b v + a u * a v)%Q.

Definition grayScaleWeights : vec4 :=
  {| r := 30 # 100; g := 59 # 100; b := 11 # 100; a := 0 |}.

Definition minChannel (v : vec3) : Q :=
  let t := if Qlt_bool (x v) (y v) then x v else y v in
  let t := if Qlt_bool t (z v) then t else z v in
  t.

Definition maxChannel (v : vec3) : Q :=
  let t := if Qlt_bool (y v) (x v) then x v else y v in
  let t := if Qlt_bool (z v) t then t else z v in
  t.

Definition rgbToHsv (rgb : vec3) : vec3 :=
  let hsv := {| x := 0; y := 0; z := 0 |} in
  let minVal := minChannel rgb in
  let maxVal := maxChannel rgb in
  let delta := (maxVal - minVal)%Q in
  let hsv := {| x := x hsv; y := y hsv; z := maxVal |} in
  if negb (Qeq_bool delta 0) then
    let hsv := {| x := x hsv; y := (delta / maxVal)%Q; z := z hsv |} in
    let delRGB :=
      {| x := ((((maxVal - x rgb) / 6) + (delta / 2)) / delta)%Q;
         y := ((((maxVal - y rgb) / 6) + (delta / 2)) / delta)%Q;
         z := ((((maxVal - z rgb) / 6) + (delta / 2)) / delta)%Q |} in
    let hsv :=
      if Qeq_bool (x rgb) maxVal then
        {| x := (z delRGB - y delRGB)%Q; y := y hsv; z := z hsv |}
      else if Qeq_bool (y rgb) maxVal then
        {| x := ((1 / 3) + x delRGB - z delRGB)%Q; y := y hsv; z := z hsv |}
      else if Qeq_bool (z rgb) maxVal then
        {| x := ((2 / 3) + y delRGB - x delRGB)%Q; y := y hsv; z := z hsv |}
      else hsv in
    let hsv :=
      if Qlt_bool (x hsv) 0
      then {| x := (x hsv + 1)%Q; y := y hsv; z := z hsv |}
      else hsv in
    let hsv :=
      if Qlt_bool 1 (x hsv)
      then {| x := (x hsv - 1)%Q; y := y hsv; z := z hsv |}
      else hsv in
    hsv
  else hsv.

Definition hsvToRgb (hsv : vec3) : vec3 :=
  let rgb := {| x := z hsv; y := z hsv; z := z hsv |} in
  if negb (Qeq_bool (y hsv) 0) then
    let var_h := (x hsv * 6)%Q in
    let var_i := inject_Z (Qfloor var_h) in
    let var_1 := (z hsv * (1 - y hsv))%Q in
    let var_2 := (z hsv * (1 - y hsv * (var_h - var_i)))%Q in
    let var_3 := (z hsv * (1 - y hsv * (1 - (var_h - var_i))))%Q in
    match to_int var_i with
    | 0 => {| x := z hsv; y := var_3; z := var_1 |}
    | 1 => {| x := var_2; y := z hsv; z := var_1 |}
    | 2 => {| x := var_1; y := z hsv; z := var_3 |}
    | 3 => {| x := var_1; y := var_2; z := z hsv |}
    | 4 => {| x := var_3; y := var_1; z := z hsv |}
    | _ => {| x := z hsv; y := var_1; z := var_2 |}
    end
  else rgb.

(** [main]: [c0] is the texel that [texture2D] returns, the result is
    [gl_FragColor]. *)
Definition main (u : uniforms) (c0 : vec4) : vec4 :=
  let c1 := {| r := Red1 u; g := Grn1 u; b := Blu1 u; a := Alf1 u |} in
  let c2 := {| r := Red2 u; g := Grn2 u; b := Blu2 u; a := Alf2 u |} in
  (* Convert to HSV for combining chroma *)
  let hsv := rgbToHsv {| x := r c0; y := g c0; z := b c0 |} in
  (* calculate luminance *)
  let luminance := dot c0 grayScaleWeights in
  (* Threshold with smoothing *)
  let f := smoothstep (Threshold u) (Threshold u + Smoothness u) luminance in
  (* Alpha for thresholded result *)
  let alf := Alf1 u in
  let alf := if Qlt_bool (5 # 10) f then Alf2 u else alf in
  if (TwoTone u >? 0) && (Chroma u <=? 0) then
    {| r := (f * r c1 + (1 - f) * r c2)%Q;
       g := (f * g c1 + (1 - f) * g c2)%Q;
       b := (f * b c1 + (1 - f) * b c2)%Q;
       a := (f * a c1 + (1 - f) * a c2)%Q |}
  else if (Chroma u >? 0) && (TwoTone u <=? 0) then
    let c := hsvToRgb {| x := x hsv; y := y hsv; z := f |} in
    {| r := x c; g := y c; b := z c; a := alf |}
  else
    {| r := f; g := f; b := f; a := alf |}.

End Shader.

(** The uniforms that [ProcessOpenGL] sets from the object. *)
Definition uniforms_of (this : AutoThreshold Q) : Shader.uniforms :=
  {| Shader.Threshold := m_Threshold this;
     Shader.Smoothness := m_Smoothness this;
     Shader.TwoTone := m_TwoTone this;
     Shader.Chroma := m_Chroma this;
     Shader.Red1 := m_Red1 this; Shader.Grn1 := m_Grn1 this;
     Shader.Blu1 := m_Blu1 this;
     Shader.Red2 := m_Red2 this; Shader.Grn2 := m_Grn2 this;
     Shader.Blu2 := m_Blu2 this;
     Shader.Alf1 := m_Alf1 this; Shader.Alf2 := m_Alf2 this |}.

(** Channels in 0..1. *)
Definition unit_Q (q : Q) : Prop := (0 <= q <= 1)%Q.

Definition unit_vec4 (c : Shader.vec4) : Prop :=
  unit_Q (Shader.r c) /\ unit_Q (Shader.g c) /\
  unit_Q (Shader.b c) /\ unit_Q (Shader.a c).

Definition unit_colours (u : Shader.uniforms) : Prop :=
  unit_Q (Shader.Red1 u) /\ unit_Q (Shader.Grn1 u) /\ unit_Q (Shader.Blu1 u) /\
  unit_Q (Shader.Red2 u) /\ unit_Q (Shader.Grn2 u) /\ unit_Q (Shader.Blu2 u) /\
  unit_Q (Shader.Alf1 u) /\ unit_Q (Shader.Alf2 u).

(** Two colours with equal channels. *)
Definition same_vec3 (c d : Shader.vec3) : Prop :=
  (Shader.x c == Shader.x d /\ Shader.y c == Shader.y d /\
   Shader.z c == Shader.z d)%Q.

Definition same_vec4 (c d : Shader.vec4) : Prop :=
  (Shader.r c == Shader.r d /\ Shader.g c == Shader.g d /\
   Shader.b c == Shader.b d /\ Shader.a c == Shader.a d)%Q.


(** The colour channels of a texel, its luminance, and the blend factor
    [f] that [main] computes for it. *)
Definition rgb_of (c : Shader.vec4) : Shader.vec3 :=
  {| Shader.x := Shader.r c; Shader.y := Shader.g c; Shader.z := Shader.b c |}.

Definition luminance (c0 : Shader.vec4) : Q :=
  Shader.dot c0 Shader.grayScaleWeights.

Definition level (u : Shader.uniforms) (c0 : Shader.vec4) : Q :=
  Shader.smoothstep (Shader.Threshold u)
    (Shader.Threshold u + Shader.Smoothness u) (luminance c0).

(** The two colours of the uniforms, and the tests that select the two-tone
    and the chroma mode. *)
Definition colour1 (u : Shader.uniforms) : Shader.vec4 :=
  {| Shader.r := Shader.Red1 u; Shader.g := Shader.Grn1 u;
     Shader.b := Shader.Blu1 u; Shader.a := Shader.Alf1 u |}.

Definition colour2 (u : Shader.uniforms) : Shader.vec4 :=
  {| Shader.r := Shader.Red2 u; Shader.g := Shader.Grn2 u;
     Shader.b := Shader.Blu2 u; Shader.a := Shader.Alf2 u |}.

Definition two_tone (u : Shader.uniforms) : bool :=
  (Shader.TwoTone u >? 0) && (Shader.Chroma u <=? 0).

Definition chroma (u : Shader.uniforms) : bool :=
  (Shader.Chroma u >? 0) && (Shader.TwoTone u <=? 0).

(** Uniforms and texels on which statements are tried. *)
Definition uniforms1 : Shader.uniforms :=
  {| Shader.Threshold := 1 # 2; Shader.Smoothness := 1 # 10;
     Shader.TwoTone := 0; Shader.Chroma := 1;
     Shader.Red1 := 1; Shader.Grn1 := 1 # 2; Shader.Blu1 := 0;
     Shader.Red2 := 0; Shader.Grn2 := 0; Shader.Blu2 := 1 # 4;
     Shader.Alf1 := 1; Shader.Alf2 := 1 # 2 |}.

Definition uniforms2 : Shader.uniforms :=
  {| Shader.Threshold := 1 # 2; Shader.Smoothness := 1 # 10;
     Shader.TwoTone := 1; Shader.Chroma := 0;
     Shader.Red1 := 1; Shader.Grn1 := 1 # 2; Shader.Blu1 := 0;
     Shader.Red2 := 0; Shader.Grn2 := 0; Shader.Blu2 := 1 # 4;
     Shader.Alf1 := 1; Shader.Alf2 := 1 # 2 |}.

Definition orange : Shader.vec4 :=
  {| Shader.r := 1; Shader.g := 1 # 2; Shader.b := 1 # 4; Shader.a := 1 |}.

Definition navy : Shader.vec4 :=
  {| Shader.r := 0; Shader.g := 1 # 10; Shader.b := 1 # 2; Shader.a := 1 |}.
(** * Floating point values with infinities and NaN

    The value of a [float] or a [double] is a rational number, an infinity
    or NaN.  [IEEE.float] keeps these apart.  Its comparisons are those of
    IEEE 754: every comparison with NaN is false.  Its arithmetic is exact
    on the rationals and follows IEEE 754 on the others: NaN is handed on,
    and [inf - inf], [0 * inf], [0 / 0] and [inf / inf] are NaN.  Zero has
    no sign here: a value that is not zero divided by zero is the infinity
    of the sign of that value. *)

Module IEEE.

Inductive float : Type :=
| Finite (q : Q)
| PInf
| NInf
| NaN.

Definition infinity (positive : bool) : float :=
  if positive then PInf else NInf.

Definition neg (x : float) : float :=
  match x with
  | Finite q => Finite (- q)
  | PInf => NInf
  | NInf => PInf
  | NaN => NaN
  end.

Definition add (x y : float) : float :=
  match x, y with
  | NaN, _ | _, NaN => NaN
  | Finite a, Finite b => Finite (a + b)
  | PInf, NInf | NInf, PInf => NaN
  | PInf, _ | _, PInf => PInf
  | NInf, _ | _, NInf => NInf
  end.

Definition sub (x y : float) : float := add x (neg y).

Definition mul (x y : float) : float :=
  match x, y with
  | NaN, _ | _, NaN => NaN
  | Finite a, Finite b => Finite (a * b)
  | Finite a, PInf | PInf, Finite a =>
      if Qeq_bool a 0 then NaN else infinity (Qlt_bool 0 a)
  | Finite a, NInf | NInf, Finite a =>
      if Qeq_bool a 0 then NaN else infinity (Qlt_bool a 0)
  | PInf, PInf | NInf, NInf => PInf
  | PInf, NInf | NInf, PInf => NInf
  end.

Definition div (x y : float) : float :=
  match x, y with
  | NaN, _ | _, NaN => NaN
  | Finite a, Finite b =>
      if Qeq_bool b 0
      then if Qeq_bool a 0 then NaN else infinity (Qlt_bool 0 a)
      else Finite (a / b)
  | Finite _, _ => Finite 0
  | PInf, Finite b => infinity (negb (Qlt_bool b 0))
  | NInf, Finite b => infinity (Qlt_bool b 0)
  | _, _ => NaN
  end.

(** [x < y]. *)
Definition lt (x y : float) : bool :=
  match x, y with
  | NaN, _ | _, NaN => false
  | Finite a, Finite b => Qlt_bool a b
  | NInf, NInf => false
  | NInf, _ => true
  | _, NInf => false
  | PInf, _ => false
  | Finite _, PInf => true
  end.

(** [x == y]. *)
Definition eq (x y : float) : bool :=
  match x, y with
  | Finite a, Finite b => Qeq_bool a b
  | PInf, PInf | NInf, NInf => true
  | _, _ => false
  end.

(** [(int)x]; the cast of an infinity or of NaN is undefined in C, here
    it is the smallest [int], which is what the x86 conversion gives. *)
Definition to_int (x : float) : Z :=
  match x with
  | Finite q => Z.quot (Qnum q) (Zpos (Qden q))
  | _ => Int.min_int
  end.

(** The [float] that the 32 bits [d] hold (binary32): one sign bit, 8
    exponent bits, 23 fraction bits.  This is what
    [*((float * )&NewParameterValue)] reads in [SetParameter]. *)
Definition of_bits (d : Z) : float :=
  let negative := Z.testbit d 31 in
  let exponent := Z.land (Z.shiftr d 23) 255 in
  let fraction := Z.land d (2 ^ 23 - 1) in
  if exponent =? 255 then
    if fraction =? 0 then infinity (negb negative) else NaN
  else
    let magnitude :=
      if exponent =? 0
      then (inject_Z fraction * Qpower 2 (- 149))%Q
      else (inject_Z (2 ^ 23 + fraction) * Qpower 2 (exponent - 150))%Q in
    Finite (if negative then (- magnitude)%Q else magnitude).

Definition finite (x : float) : Prop :=
  match x with
  | Finite _ => True
  | _ => False
  end.

(** [0 <= x <= 1]. *)
Definition in_unit (x : float) : Prop :=
  match x with
  | Finite q => (0 <= q <= 1)%Q
  | _ => False
  end.

(** The same value. *)
Definition same (x y : float) : Prop :=
  match x, y with
  | Finite a, Finite b => (a == b)%Q
  | PInf, PInf | NInf, NInf | NaN, NaN => True
  | _, _ => False
  end.

(** [clamp(x, lo, hi)] of a value that is not NaN. *)
Definition limit (x : float) (lo hi : Q) : float :=
  match x with
  | Finite q => Finite (clamp q lo hi)
  | PInf => Finite hi
  | NInf => Finite lo
  | NaN => NaN
  end.

End IEEE.

#[export] Instance IEEE_ops : FloatOps IEEE.float | 100 := {
  of_int := fun n => IEEE.Finite (inject_Z n);
  to_int := IEEE.to_int;
  fadd := IEEE.add;
  fsub := IEEE.sub;
  fmul := IEEE.mul;
  fdiv := IEEE.div;
  flt := IEEE.lt;
  fgt := fun x y => IEEE.lt y x;
  feq := IEEE.eq
}.

(** The value that [ProcessOpenGL] limits to 0..1: the estimate of the
    last frame times the user entry times 2 in automatic mode, the user
    entry otherwise. *)
Definition blended {F : Type} `{FloatOps F} (this : AutoThreshold F) : F :=
  if negb (m_Auto this =? 0)
  then fmul (fmul (m_AutoThreshold this) (m_UserThreshold this)) (of_int 2)
  else m_UserThreshold this.

(** Outcomes and pairs of sums, from the rationals to [IEEE.float]. *)
Definition map_result {A B : Type} (f : A -> B) (r : result A) : result B :=
  match r with
  | Ok a => Ok (f a)
  | OutOfBounds => OutOfBounds
  | OutOfFuel => OutOfFuel
  end.

Definition finite_sums (acc : Q * Q) : IEEE.float * IEEE.float :=
  (IEEE.Finite (fst acc), IEEE.Finite (snd acc)).

(** The constructor over [IEEE.float]. *)
Definition IEEE_constructor (memory : AutoThreshold IEEE.float)
    : AutoThreshold IEEE.float :=
  {| m_Threshold := m_Threshold memory;
     m_UserThreshold := IEEE.Finite (5 # 10);
     m_AutoThreshold := m_AutoThreshold memory;
     m_Smoothness := IEEE.Finite 0;
     m_TwoTone := 0; m_Chroma := 0; m_Auto := 0;
     m_Red1 := IEEE.Finite 1; m_Grn1 := IEEE.Finite (82 # 100);
     m_Blu1 := IEEE.Finite 1; m_Alf1 := IEEE.Finite 1;
     m_Red2 := IEEE.Finite (93 # 100); m_Grn2 := IEEE.Finite 0;
     m_Blu2 := IEEE.Finite 0; m_Alf2 := IEEE.Finite 1;
     m_histogram := m_histogram memory |}.

(** An object whose members all hold NaN, as memory before the
    constructor, and the object after the constructor and [InitGL]. *)
Definition IEEE_memory : AutoThreshold IEEE.float :=
  {| m_Threshold := IEEE.NaN; m_UserThreshold := IEEE.NaN;
     m_AutoThreshold := IEEE.NaN; m_Smoothness := IEEE.NaN;
     m_TwoTone := 7; m_Chroma := 7; m_Auto := 7;
     m_Red1 := IEEE.NaN; m_Grn1 := IEEE.NaN; m_Blu1 := IEEE.NaN;
     m_Alf1 := IEEE.NaN;
     m_Red2 := IEEE.NaN; m_Grn2 := IEEE.NaN; m_Blu2 := IEEE.NaN;
     m_Alf2 := IEEE.NaN;
     m_histogram := [] |}.

Definition IEEE_plugin : AutoThreshold IEEE.float :=
  snd (InitGL true (IEEE_constructor IEEE_memory)).

(** The bits of a quiet NaN, of 1.0 and of 0.75. *)
Definition NaN_bits : Z := 2143289344.
Definition one_bits : Z := 1065353216.
Definition three_quarter_bits : Z := 1061158912.

(** A stand-in for the cast of [GetParameter] where its result is not
    looked at. *)
Definition no_bits (x : IEEE.float) : Z := 0.

(** What holds of the object between calls: the two thresholds are in
    0..1, the user entry is a finite number and the three mode flags are
    0 or 1. *)
Definition plugin_ok (this : AutoThreshold IEEE.float) : Prop :=
  IEEE.in_unit (m_Threshold this) /\
  IEEE.in_unit (m_AutoThreshold this) /\
  IEEE.finite (m_UserThreshold this) /\
  (m_Auto this = 0 \/ m_Auto this = 1) /\
  (m_TwoTone this = 0 \/ m_TwoTone this = 1) /\
  (m_Chroma this = 0 \/ m_Chroma this = 1).

(** A call with well-formed textures that, when it sets the Threshold
    parameter, gives it the bits of a finite number. *)
Definition host_call_ok (float_of_bits : Z -> IEEE.float) (c : call) : Prop :=
  call_ok c /\
  match c with
  | CallSetParameter (Some p) =>
      ParameterNumber p = FFPARAM_Threshold ->
      IEEE.finite (float_of_bits (NewParameterValue p))
  | _ => True
  end.

(** A 9x9 frame of mid-gray pixels as a texture. *)
Definition gray9 : FFGLTextureStruct :=
  {| Width := 9; Height := 9; pixels := solid 81 (pixel x80 x80 x80) |}.

(** The calls that switch automatic mode on, set the user entry to 0.75
    and process a gray frame, and those that give the user entry the bits
    of a NaN. *)
Definition calls_auto : list call :=
  [CallSetParameter (Some {| ParameterNumber := FFPARAM_Auto;
                             NewParameterValue := one_bits |});
   CallSetParameter (Some {| ParameterNumber := FFPARAM_Threshold;
                             NewParameterValue := three_quarter_bits |});
   CallProcessOpenGL [Some gray9]].

Definition calls_NaN : list call :=
  [CallSetParameter (Some {| ParameterNumber := FFPARAM_Threshold;
                             NewParameterValue := NaN_bits |})].

Ltac int_range := unfold Int.in_range, Int.min_int, Int.max_int in *.

(** * Machine integers: no wrap-around inside the range *)

Lemma wrap_small (z : Z) : Int.in_range z -> Int.wrap z = z.
Proof.
  unfold Int.in_range, Int.min_int, Int.max_int, Int.wrap. intros Hz.
  rewrite Z.mod_small by lia. lia.
Qed.

Lemma wrap_range (z : Z) : Int.in_range (Int.wrap z).
Proof.
  unfold Int.in_range, Int.min_int, Int.max_int, Int.wrap.
  pose proof (Z.mod_pos_bound (z + 2 ^ 31) (2 ^ 32) eq_refl). lia.
Qed.

(** Removes the wrap-arounds of the goal, innermost first, where [lia]
    shows the wrapped value to be in range. *)
Ltac unwrap :=
  repeat match goal with
    | |- context [Int.wrap ?z] =>
        lazymatch z with
        | context [Int.wrap _] => fail
        | _ => rewrite (wrap_small z) by (int_range; lia)
        end
    end.

(** * Reading the buffer *)

Lemma byte_val_range (b : byte) : 0 <= byte_val b <= 255.
Proof.
  unfold byte_val. pose proof (Byte.to_N_bounded b) as Hb.
  lia.
Qed.

Lemma byte_at_range (buffer : list byte) (off : Z) :
  0 <= byte_at buffer off <= 255.
Proof. apply byte_val_range. Qed.

Lemma rgb_range (buffer : list byte) (off : Z) : 0 <= rgb buffer off <= 765.
Proof.
  unfold rgb.
  pose proof (byte_at_range buffer off).
  pose proof (byte_at_range buffer (off + 1)).
  pose proof (byte_at_range buffer (off + 2)). lia.
Qed.

Lemma peek_ok (buffer : list byte) (off : Z) :
  0 <= off < Z.of_nat (length buffer) ->
  peek buffer off = Ok (byte_at buffer off).
Proof.
  intros Hoff. unfold peek, byte_at.
  destruct (Z.ltb_spec off 0) as [Hneg | _]; [lia |].
  destruct (nth_error buffer (Z.to_nat off)) as [b |] eqn:Hnth.
  - now rewrite (nth_error_nth _ _ x00 Hnth).
  - apply nth_error_None in Hnth. lia.
Qed.

(** * Counting loops run over their index list *)

Lemma for_loop_iota {S : Type} (step bound : Z) (body : Z -> S -> result S) :
  0 < step ->
  forall (n fuel : nat) (i : Z) (s : S),
    (n <= fuel)%nat ->
    Int.min_int <= i -> i + step * Z.of_nat n <= Int.max_int ->
    bound <= i + step * Z.of_nat n ->
    (n <> 0%nat -> i + step * (Z.of_nat n - 1) < bound) ->
    for_loop fuel step i bound body s = foldM body (iota step n i) s.
Proof.
  intros Hstep n. induction n as [| n IH]; intros fuel i s Hfuel Hlo Hhi Hend Hrun.
  - destruct fuel; simpl; destruct (Z.ltb_spec i bound); try reflexivity; lia.
  - destruct fuel as [| fuel]; [lia |].
    assert (Hi : i < bound) by (specialize (Hrun ltac:(discriminate)); lia).
    simpl. destruct (Z.ltb_spec i bound); [| lia].
    assert (Hadd : Int.add i step = i + step).
    { apply wrap_small. int_range. lia. }
    rewrite Hadd.
    destruct (body i s) as [s' | |]; simpl; try reflexivity.
    apply IH; try lia.
Qed.

(** * The gradient estimator on a well-formed frame *)

Lemma Qplus_inject_Z (a b : Z) :
  Qplus (inject_Z a) (inject_Z b) = inject_Z (a + b).
Proof. unfold Qplus, inject_Z. simpl. f_equal. lia. Qed.

Lemma frame_pixel_bounds (buffer : list byte) (Width Height i j : Z) :
  frame buffer Width Height ->
  0 <= i < Height -> 0 <= j < Width ->
  0 <= pixel_ptr Width i j /\
  pixel_ptr Width i j + 4 <= Z.of_nat (length buffer).
Proof.
  intros (HW & HH & Hmax & Hlen) Hi Hj. unfold pixel_ptr. rewrite Hlen.
  split; nia.
Qed.

Lemma MAX_max (x y : Z) : Int.MAX x y = Z.max x y.
Proof. unfold Int.MAX. destruct (Z.gtb_spec x y); lia. Qed.

Lemma gradient_pixel_ok (buffer : list byte) (Width Height i j a b : Z) :
  frame buffer Width Height ->
  1 <= i <= Height - 2 -> 1 <= j <= Width - 2 ->
  gradient_pixel buffer Width (Int.mul i (Int.mul Width 4) + Int.mul j 4)
    (inject_Z a, inject_Z b)
  = Ok (inject_Z (a + exy_of buffer Width (i, j)),
        inject_Z (b + exy_of buffer Width (i, j) * mid_of buffer Width (i, j))).
Proof.
  intros Hf Hi Hj.
  pose proof (frame_pixel_bounds buffer Width Height (i - 1) j Hf
                ltac:(lia) ltac:(lia)) as Hup.
  pose proof (frame_pixel_bounds buffer Width Height (i + 1) j Hf
                ltac:(lia) ltac:(lia)) as Hdown.
  pose proof (frame_pixel_bounds buffer Width Height i (j - 1) Hf
                ltac:(lia) ltac:(lia)) as Hleft.
  pose proof (frame_pixel_bounds buffer Width Height i (j + 1) Hf
                ltac:(lia) ltac:(lia)) as Hright.
  destruct Hf as (HW & HH & Hmax & Hlen).
  assert (HW4 : Int.mul Width 4 = Width * 4).
  { apply wrap_small. int_range. nia. }
  assert (Hrow : Int.mul i (Width * 4) = i * (Width * 4)).
  { apply wrap_small. int_range. nia. }
  assert (Hcol : Int.mul j 4 = j * 4).
  { apply wrap_small. int_range. nia. }
  rewrite HW4, Hrow, Hcol.
  replace (i * (Width * 4) + j * 4) with (pixel_ptr Width i j)
    by (unfold pixel_ptr; ring).
  unfold pixel_ptr in Hup, Hdown, Hleft, Hright.
  unfold gradient_pixel. rewrite HW4.
  rewrite !peek_ok by (unfold pixel_ptr; lia).
  cbn [bind].
  unfold exy_of, left_of, right_of, mid_of, top_of, bot_of, fst, snd.
  replace (pixel_ptr Width i (j - 1)) with (pixel_ptr Width i j - 4)
    by (unfold pixel_ptr; ring).
  replace (pixel_ptr Width i (j + 1)) with (pixel_ptr Width i j + 4)
    by (unfold pixel_ptr; ring).
  replace (pixel_ptr Width (i - 1) j) with (pixel_ptr Width i j - Width * 4)
    by (unfold pixel_ptr; ring).
  replace (pixel_ptr Width (i + 1) j) with (pixel_ptr Width i j + Width * 4)
    by (unfold pixel_ptr; ring).
  set (lp := pixel_ptr Width i j).
  unfold rgb.
  replace (lp - 4 + 1) with (lp - 3) by ring.
  replace (lp - 4 + 2) with (lp - 2) by ring.
  replace (lp + 4 + 1) with (lp + 5) by ring.
  replace (lp + 4 + 2) with (lp + 6) by ring.
  generalize
    (byte_at_range buffer (lp - 4)) (byte_at_range buffer (lp - 3))
    (byte_at_range buffer (lp - 2)) (byte_at_range buffer lp)
    (byte_at_range buffer (lp + 1)) (byte_at_range buffer (lp + 2))
    (byte_at_range buffer (lp + 4)) (byte_at_range buffer (lp + 5))
    (byte_at_range buffer (lp + 6)) (byte_at_range buffer (lp - Width * 4))
    (byte_at_range buffer (lp - Width * 4 + 1))
    (byte_at_range buffer (lp - Width * 4 + 2))
    (byte_at_range buffer (lp + Width * 4))
    (byte_at_range buffer (lp + Width * 4 + 1))
    (byte_at_range buffer (lp + Width * 4 + 2)).
  generalize
    (byte_at buffer (lp - 4)) (byte_at buffer (lp - 3))
    (byte_at buffer (lp - 2)) (byte_at buffer lp)
    (byte_at buffer (lp + 1)) (byte_at buffer (lp + 2))
    (byte_at buffer (lp + 4)) (byte_at buffer (lp + 5))
    (byte_at buffer (lp + 6)) (byte_at buffer (lp - Width * 4))
    (byte_at buffer (lp - Width * 4 + 1)) (byte_at buffer (lp - Width * 4 + 2))
    (byte_at buffer (lp + Width * 4)) (byte_at buffer (lp + Width * 4 + 1))
    (byte_at buffer (lp + Width * 4 + 2)).
  clear. intros l0 l1 l2 m0 m1 m2 r0 r1 r2 t0 t1 t2 b0 b1 b2. intros.
  unfold Int.add, Int.sub, Int.abs, Int.mul.
  unwrap. rewrite MAX_max.
  match goal with
  | |- context [Int.wrap (?e * ?m)] =>
      assert (0 <= e <= 1530) by lia; assert (0 <= m <= 765) by lia;
      rewrite (wrap_small (e * m)) by (int_range; nia)
  end.
  simpl of_int. simpl fadd. rewrite !Qplus_inject_Z.
  do 3 f_equal; f_equal; lia.
Qed.

(** The sampled indices. *)

Lemma In_iota (step : Z) (n : nat) (i x : Z) :
  In x (iota step n i) <->
  exists k : Z, 0 <= k < Z.of_nat n /\ x = i + step * k.
Proof.
  revert i. induction n as [| n IH]; intros i; simpl.
  - split; [tauto | intros (k & Hk & _); lia].
  - rewrite IH. split.
    + intros [<- | (k & Hk & ->)].
      * exists 0. lia.
      * exists (k + 1). lia.
    + intros (k & Hk & ->).
      destruct (Z.eq_dec k 0) as [-> | Hk0].
      * left. lia.
      * right. exists (k - 1). lia.
Qed.

Lemma In_samples (n x : Z) :
  In x (samples n) <-> 4 <= x < n - 4 /\ x mod 4 = 0.
Proof.
  unfold samples. rewrite In_iota.
  pose proof (Z.div_mod (n - 5) 4 ltac:(lia)) as Hn.
  pose proof (Z.mod_pos_bound (n - 5) 4 ltac:(lia)) as Hr.
  split.
  - intros (k & Hk & ->). split; [lia |].
    replace (4 + 4 * k) with ((k + 1) * 4) by ring. apply Z.mod_mul. lia.
  - intros (Hx & Hmod).
    pose proof (Z.div_mod x 4 ltac:(lia)) as Hx4.
    exists (x / 4 - 1). lia.
Qed.

Lemma sum_over_app {A : Type} (f : A -> Z) (l1 l2 : list A) :
  sum_over f (l1 ++ l2) = sum_over f l1 + sum_over f l2.
Proof.
  unfold sum_over. induction l1 as [| a l1 IH]; simpl; [reflexivity | lia].
Qed.

Lemma sum_over_map {A B : Type} (f : B -> Z) (g : A -> B) (l : list A) :
  sum_over f (map g l) = sum_over (fun a => f (g a)) l.
Proof.
  unfold sum_over. induction l as [| a l IH]; simpl; [reflexivity | lia].
Qed.

Lemma sum_over_prod (f : Z * Z -> Z) (i : Z) (rows cols : list Z) :
  sum_over f (list_prod (i :: rows) cols)
  = sum_over (fun j => f (i, j)) cols + sum_over f (list_prod rows cols).
Proof. simpl. now rewrite sum_over_app, sum_over_map. Qed.

Lemma foldM_cons {S : Type} (body : Z -> S -> result S) (i : Z) (l : list Z)
    (s : S) :
  foldM body (i :: l) s = bind (body i s) (foldM body l).
Proof. reflexivity. Qed.

(** The sampling loop of [gradient] visits [samples n]. *)
Lemma samples_loop {S : Type} (n : Z) (body : Z -> S -> result S) (s : S) :
  Int.min_int + 4 <= n <= Int.max_int ->
  for_loop (Z.to_nat n) 4 4 (Int.sub n 4) body s = foldM body (samples n) s.
Proof.
  intros Hn. unfold Int.sub. rewrite wrap_small by (int_range; lia).
  unfold samples.
  pose proof (Z.div_mod (n - 5) 4 ltac:(lia)) as Hq.
  pose proof (Z.mod_pos_bound (n - 5) 4 ltac:(lia)) as Hr.
  apply for_loop_iota; int_range; lia.
Qed.

Lemma gradient_columns (buffer : list byte) (Width Height i : Z) :
  frame buffer Width Height ->
  1 <= i <= Height - 2 ->
  forall (cols : list Z) (a b : Z),
    (forall j, In j cols -> 1 <= j <= Width - 2) ->
    foldM (fun j acc =>
             gradient_pixel buffer Width
               (Int.mul i (Int.mul Width 4) + Int.mul j 4) acc)
          cols (inject_Z a, inject_Z b)
    = Ok (inject_Z (a + sum_over (fun j => exy_of buffer Width (i, j)) cols),
          inject_Z (b + sum_over (fun j => exy_of buffer Width (i, j)
                                            * mid_of buffer Width (i, j)) cols)).
Proof.
  intros Hf Hi cols. induction cols as [| j cols IH]; intros a b Hcols.
  - simpl. now rewrite !Z.add_0_r.
  - rewrite foldM_cons.
    rewrite (gradient_pixel_ok buffer Width Height i j a b Hf Hi)
      by (apply Hcols; now left).
    cbn [bind]. rewrite IH by (intros j' Hj'; apply Hcols; now right).
    unfold sum_over. simpl. do 3 f_equal; lia.
Qed.

Lemma gradient_line_ok (buffer : list byte) (Width Height i a b : Z) :
  frame buffer Width Height ->
  1 <= i <= Height - 2 ->
  gradient_line buffer Width i (inject_Z a, inject_Z b)
  = Ok (inject_Z (a + sum_over (fun j => exy_of buffer Width (i, j))
                               (samples Width)),
        inject_Z (b + sum_over (fun j => exy_of buffer Width (i, j)
                                          * mid_of buffer Width (i, j))
                               (samples Width))).
Proof.
  intros Hf Hi. unfold gradient_line.
  assert (HW : Int.min_int + 4 <= Width <= Int.max_int).
  { destruct Hf as (HW & HH & Hmax & _). int_range. nia. }
  rewrite samples_loop by exact HW.
  apply (gradient_columns buffer Width Height i Hf Hi).
  intros j Hj. apply In_samples in Hj. lia.
Qed.

Lemma gradient_rows (buffer : list byte) (Width Height : Z) :
  frame buffer Width Height ->
  forall (rows : list Z) (a b : Z),
    (forall i, In i rows -> 1 <= i <= Height - 2) ->
    foldM (gradient_line buffer Width) rows (inject_Z a, inject_Z b)
    = Ok (inject_Z (a + sum_over (exy_of buffer Width)
                                 (list_prod rows (samples Width))),
          inject_Z (b + sum_over (fun p => exy_of buffer Width p
                                           * mid_of buffer Width p)
                                 (list_prod rows (samples Width)))).
Proof.
  intros Hf rows. induction rows as [| i rows IH]; intros a b Hrows.
  - simpl. now rewrite !Z.add_0_r.
  - rewrite foldM_cons.
    rewrite (gradient_line_ok buffer Width Height i a b Hf)
      by (apply Hrows; now left).
    cbn [bind]. rewrite IH by (intros i' Hi'; apply Hrows; now right).
    rewrite !sum_over_prod. do 3 f_equal; lia.
Qed.

(** The cast [(int)(x / y)] of a quotient of two integer-valued doubles. *)
Lemma to_int_div (a c : Z) :
  0 < c -> to_int (fdiv (inject_Z a) (inject_Z c)) = Z.quot a c.
Proof.
  intros Hc. destruct c as [| c | c]; try lia.
  simpl. now rewrite Z.mul_1_r.
Qed.

Lemma exy_of_range (buffer : list byte) (Width : Z) (p : Z * Z) :
  0 <= exy_of buffer Width p <= 1530.
Proof.
  unfold exy_of, left_of, right_of, top_of, bot_of.
  pose proof (rgb_range buffer (pixel_ptr Width (fst p) (snd p - 1))).
  pose proof (rgb_range buffer (pixel_ptr Width (fst p) (snd p + 1))).
  pose proof (rgb_range buffer (pixel_ptr Width (fst p - 1) (snd p))).
  pose proof (rgb_range buffer (pixel_ptr Width (fst p + 1) (snd p))).
  lia.
Qed.

Lemma mid_of_range (buffer : list byte) (Width : Z) (p : Z * Z) :
  0 <= mid_of buffer Width p <= 765.
Proof. apply rgb_range. Qed.

(** The weighted sum is at most 765 times the sum of the weights. *)
Lemma totals_bound (buffer : list byte) (Width : Z) (l : list (Z * Z)) :
  0 <= sum_over (exy_of buffer Width) l /\
  0 <= sum_over (fun p => exy_of buffer Width p * mid_of buffer Width p) l
    <= 765 * sum_over (exy_of buffer Width) l.
Proof.
  unfold sum_over. induction l as [| p l IH]; cbn [fold_right]; [lia |].
  pose proof (exy_of_range buffer Width p) as He.
  pose proof (mid_of_range buffer Width p) as Hm.
  assert (0 <= exy_of buffer Width p * mid_of buffer Width p
          <= 765 * exy_of buffer Width p).
  { revert He Hm.
    generalize (exy_of buffer Width p) (mid_of buffer Width p). intros; nia. }
  lia.
Qed.

(** What [gradient] returns on a well-formed frame. *)
Lemma gradient_value (buffer : list byte) (Width Height : Z)
    (this : AutoThreshold Q) :
  frame buffer Width Height ->
  fst (gradient buffer Width Height this)
  = Ok (inject_Z (Z.quot (total_exy_fxy buffer Width Height)
                         (total_exy buffer Width Height + 1))
        / inject_Z 768)%Q.
Proof.
  intros Hf. unfold gradient. cbn [fst].
  assert (HH : Int.min_int + 4 <= Height <= Int.max_int).
  { destruct Hf as (HW & HH & Hmax & _). int_range. nia. }
  rewrite samples_loop by exact HH.
  change (of_int 0, of_int 0) with (inject_Z 0, inject_Z 0).
  rewrite (gradient_rows buffer Width Height Hf)
    by (intros i Hi; apply In_samples in Hi; lia).
  cbn [bind]. rewrite !Z.add_0_l.
  fold (sample_points Width Height).
  fold (total_exy buffer Width Height).
  fold (total_exy_fxy buffer Width Height).
  change (fadd ?x (of_int 1)) with (Qplus x (inject_Z 1)).
  rewrite Qplus_inject_Z.
  pose proof (totals_bound buffer Width (sample_points Width Height)) as Hb.
  fold (total_exy buffer Width Height) in Hb.
  rewrite to_int_div by lia.
  reflexivity.
Qed.

(** * Claims about the gradient estimator *)

(** Well-formedness of a concrete frame, by evaluation. *)
Ltac concrete_frame :=
  unfold frame; vm_compute; repeat split; congruence.

Lemma In_sample_points (Width Height i j : Z) :
  In (i, j) (sample_points Width Height) <->
  (4 <= i < Height - 4 /\ i mod 4 = 0) /\ (4 <= j < Width - 4 /\ j mod 4 = 0).
Proof.
  unfold sample_points. now rewrite in_prod_iff, !In_samples.
Qed.

(** C1 (amended): on a well-formed frame [gradient] samples the pixels
    whose row and column are multiples of 4 from 4 on and below
    [Height - 4] and [Width - 4], sums [exy] and [exy * mid] over them,
    where [exy = max(|left - right|, |top - bot|)] is taken from the
    adjacent pixels (4 bytes away) as the source's variables hold them,
    and returns the sum of [exy * mid] divided by the sum of [exy] plus
    one, truncated to an integer, over [3 * 256]. *)
Theorem gradient_sums_sampled_pixels (buffer : list byte) (Width Height : Z)
    (this : AutoThreshold Q) :
  frame buffer Width Height ->
  (forall i j,
      In (i, j) (sample_points Width Height) <->
      (4 <= i < Height - 4 /\ i mod 4 = 0) /\
      (4 <= j < Width - 4 /\ j mod 4 = 0)) /\
  fst (gradient buffer Width Height this)
  = Ok (inject_Z (Z.quot (total_exy_fxy buffer Width Height)
                         (total_exy buffer Width Height + 1))
        / inject_Z (3 * 256))%Q.
Proof.
  intros Hf. split.
  - intros i j. apply In_sample_points.
  - now apply gradient_value.
Qed.

Lemma gradient_sums_sampled_pixels_witness :
  (forall i j,
      In (i, j) (sample_points 9 9) <->
      (4 <= i < 9 - 4 /\ i mod 4 = 0) /\ (4 <= j < 9 - 4 /\ j mod 4 = 0)) /\
  fst (gradient frame9 9 9 initial_plugin)
  = Ok (inject_Z (Z.quot (total_exy_fxy frame9 9 9)
                         (total_exy frame9 9 9 + 1))
        / inject_Z (3 * 256))%Q.
Proof.
  apply (gradient_sums_sampled_pixels frame9 9 9 initial_plugin).
  concrete_frame.
Defined.

(** C1 fails as stated: on [frame9] the only sampled pixel has
    [left = mid = 1] and [right = top = bot = 0], whichever of the two
    neighbour distances is meant, so the claimed value is (1/2)/768; the
    code truncates 1/2 to 0 and returns 0. *)
Lemma gradient_claimed_fails_frame9 :
  fst (gradient frame9 9 9 initial_plugin) = Ok (0 # 768)%Q /\
  ~ (0 # 768 == gradient_claimed 4 frame9 9 9)%Q /\
  ~ (0 # 768 == gradient_claimed 1 frame9 9 9)%Q.
Proof.
  split; [vm_compute; reflexivity |].
  split; unfold Qeq; vm_compute; discriminate.
Qed.

(** C6: on the all-mid-gray 64x64 frame the vertical edge term of every
    sampled pixel is 768 rather than 0 (the row below is added to [top] and
    [bot] stays 0), and [gradient] returns 383/768. *)
Theorem gradient_gray64 :
  (forall p, In p (sample_points 64 64) -> exy_of gray64 64 p = 768) /\
  fst (gradient gray64 64 64 initial_plugin) = Ok (383 # 768)%Q.
Proof.
  split.
  - intros p Hp.
    assert (Hall : forallb (fun p => exy_of gray64 64 p =? 768)
                     (sample_points 64 64) = true)
      by (vm_compute; reflexivity).
    rewrite forallb_forall in Hall. apply Z.eqb_eq, Hall, Hp.
  - vm_compute. reflexivity.
Qed.

(** C7: on every well-formed frame [gradient] returns a value, and the
    value lies between 0 and 1. *)
Theorem gradient_in_unit_interval (buffer : list byte) (Width Height : Z)
    (this : AutoThreshold Q) :
  frame buffer Width Height ->
  exists r : Q,
    fst (gradient buffer Width Height this) = Ok r /\ (0 <= r <= 1)%Q.
Proof.
  intros Hf. eexists. split; [now apply gradient_value |].
  pose proof (totals_bound buffer Width (sample_points Width Height))
    as (Hs & Hlo & Hhi).
  fold (total_exy buffer Width Height) in Hs, Hhi.
  fold (total_exy_fxy buffer Width Height) in Hlo, Hhi.
  rewrite Z.quot_div_nonneg by lia.
  set (t := total_exy_fxy buffer Width Height
            / (total_exy buffer Width Height + 1)).
  assert (Ht : 0 <= t <= 765).
  { subst t. split.
    - apply Z.div_pos; lia.
    - apply Z.div_le_upper_bound; lia. }
  unfold Qle, Qdiv, Qmult, Qinv, inject_Z. simpl. lia.
Qed.

Lemma gradient_in_unit_interval_witness :
  exists r : Q,
    fst (gradient gray64 64 64 initial_plugin) = Ok r /\ (0 <= r <= 1)%Q.
Proof.
  apply (gradient_in_unit_interval gray64 64 64 initial_plugin).
  concrete_frame.
Defined.

Lemma foldM_skip {S : Type} (body : Z -> S -> result S) (l : list Z) (s : S) :
  (forall i s', body i s' = Ok s') -> foldM body l s = Ok s.
Proof.
  intros Hbody. induction l as [| i l IH]; [reflexivity |].
  rewrite foldM_cons, Hbody. exact IH.
Qed.

Lemma samples_small (n : Z) : n <= 8 -> samples n = [].
Proof.
  intros Hn. unfold samples.
  replace (Z.to_nat ((n - 5) / 4)) with 0%nat; [reflexivity |].
  pose proof (Z.div_mod (n - 5) 4 ltac:(lia)).
  pose proof (Z.mod_pos_bound (n - 5) 4 ltac:(lia)). lia.
Qed.

Lemma list_prod_nil_r {A B : Type} (l : list A) : list_prod l (@nil B) = [].
Proof. induction l as [| a l IH]; [reflexivity | exact IH]. Qed.

(** C10: when [Width] or [Height] is at most 8 (and [Width - 4],
    [Height - 4] are C [int]s) no pixel is sampled, whatever the buffer
    holds: both accumulators are still 0 after the loops and [gradient]
    returns 0. *)
Theorem gradient_small_frame (buffer : list byte) (Width Height : Z)
    (this : AutoThreshold Q) :
  Int.min_int + 4 <= Width <= Int.max_int ->
  Int.min_int + 4 <= Height <= Int.max_int ->
  Width <= 8 \/ Height <= 8 ->
  sample_points Width Height = [] /\
  for_loop (Z.to_nat Height) 4 4 (Int.sub Height 4)
    (gradient_line buffer Width) (of_int 0, of_int 0)
  = Ok (of_int 0, of_int 0) /\
  exists r : Q,
    fst (gradient buffer Width Height this) = Ok r /\ (r == 0)%Q.
Proof.
  intros HW HH Hsmall.
  split.
  { unfold sample_points. destruct Hsmall as [Hw | Hh].
    - rewrite (samples_small Width Hw). apply list_prod_nil_r.
    - now rewrite (samples_small Height Hh). }
  assert (Hloop :
    for_loop (Z.to_nat Height) 4 4 (Int.sub Height 4)
      (gradient_line buffer Width) (of_int 0, of_int 0)
    = Ok (of_int 0, of_int 0)).
  { rewrite samples_loop by exact HH.
    destruct Hsmall as [Hw | Hh].
    - apply foldM_skip. intros i acc. unfold gradient_line.
      rewrite samples_loop by exact HW.
      now rewrite samples_small.
    - now rewrite samples_small. }
  split; [exact Hloop |].
  unfold gradient. cbn [fst]. rewrite Hloop. cbn [bind].
  eexists. split; [reflexivity |]. vm_compute. reflexivity.
Qed.

Lemma gradient_small_frame_witness :
  sample_points 8 100 = [] /\
  for_loop (Z.to_nat 100) 4 4 (Int.sub 100 4)
    (gradient_line (solid 800 white) 8) (of_int 0, of_int 0)
  = Ok (of_int 0, of_int 0) /\
  exists r : Q,
    fst (gradient (solid 800 white) 8 100 initial_plugin) = Ok r /\ (r == 0)%Q.
Proof.
  apply (gradient_small_frame (solid 800 white) 8 100 initial_plugin).
  - vm_compute. split; congruence.
  - vm_compute. split; congruence.
  - left. vm_compute. congruence.
Defined.

(** * The threshold of a frame *)

Lemma Qlt_bool_iff (x y : Q) : Qlt_bool x y = true <-> (x < y)%Q.
Proof. unfold Qlt_bool, Qlt. apply Z.ltb_lt. Qed.

Lemma Qlt_bool_false (x y : Q) : Qlt_bool x y = false <-> (y <= x)%Q.
Proof. unfold Qlt_bool, Qle. apply Z.ltb_ge. Qed.

(** The two tests of [ProcessOpenGL] clamp their operand to 0..1. *)
Lemma limit_is_clamp (x : Q) :
  let t := if flt x (of_int 0) then of_int 0 else x in
  let t := if fgt t (of_int 1) then of_int 1 else t in
  (t == clamp x 0 1)%Q /\ (0 <= t <= 1)%Q.
Proof.
  simpl. unfold clamp.
  destruct (Qlt_bool x (inject_Z 0)) eqn:Hneg.
  - apply Qlt_bool_iff in Hneg. change (inject_Z 0) with 0%Q in *.
    change (Qlt_bool (inject_Z 1) 0) with false. cbv iota.
    rewrite Q.max_r by now apply Qlt_le_weak.
    rewrite Q.min_l by discriminate.
    split; [reflexivity | split; discriminate].
  - apply Qlt_bool_false in Hneg. change (inject_Z 0) with 0%Q in *.
    rewrite Q.max_l by exact Hneg.
    destruct (Qlt_bool (inject_Z 1) x) eqn:Hbig.
    + apply Qlt_bool_iff in Hbig. change (inject_Z 1) with 1%Q in *.
      rewrite Q.min_r by now apply Qlt_le_weak.
      split; [reflexivity | split; discriminate].
    + apply Qlt_bool_false in Hbig. change (inject_Z 1) with 1%Q in *.
      rewrite Q.min_l by exact Hbig.
      split; [reflexivity | split; assumption].
Qed.

Lemma gradient_this {F : Type} `{FloatOps F} (buffer : list byte)
    (Width Height : Z) (this : AutoThreshold F) :
  snd (gradient buffer Width Height this) = this.
Proof. reflexivity. Qed.

Lemma ProcessOpenGL_sets_threshold {F : Type} `{FloatOps F}
    (Texture : FFGLTextureStruct) (rest : list (option FFGLTextureStruct))
    (this : AutoThreshold F) :
  m_Threshold (snd (ProcessOpenGL (Some Texture :: rest) this))
  = frame_threshold this.
Proof.
  unfold ProcessOpenGL.
  destruct (negb (m_Auto (set_Threshold (frame_threshold this) this) =? 0));
    [| reflexivity].
  pose proof (gradient_this (pixels Texture) (Width Texture) (Height Texture)
                (set_Threshold (frame_threshold this) this)) as Hthis.
  destruct (gradient (pixels Texture) (Width Texture) (Height Texture)
              (set_Threshold (frame_threshold this) this)) as [r this1].
  cbn [snd] in Hthis. subst this1.
  destruct r; reflexivity.
Qed.

(** * The threshold of a frame, for floats with NaN

    The statements of this section hold for every floating point interface
    whose values are read by [value] as rationals, infinities or NaN and
    whose two comparisons are those of IEEE 754.  Nothing is asked of its
    arithmetic, so they hold with the rounding of the machine. *)

Section ThresholdValue.

Context {F : Type} `{FloatOps F}.

Variable value : F -> IEEE.float.

Hypothesis flt_value : forall x y : F, flt x y = IEEE.lt (value x) (value y).
Hypothesis fgt_value : forall x y : F, fgt x y = IEEE.lt (value y) (value x).
Hypothesis zero_value : value (of_int 0) = IEEE.Finite 0.
Hypothesis one_value : value (of_int 1) = IEEE.Finite 1.

(** The two tests of [ProcessOpenGL] on a value [x]. *)
Lemma limit_value (x : F) :
  let t := if flt x (of_int 0) then of_int 0 else x in
  let t := if fgt t (of_int 1) then of_int 1 else t in
  IEEE.same (value t) (IEEE.limit (value x) 0 1) /\
  (value x <> IEEE.NaN -> IEEE.in_unit (value t)) /\
  (value x = IEEE.NaN -> value t = IEEE.NaN).
Proof.
  cbv zeta. rewrite flt_value, zero_value.
  destruct (value x) as [q | | |] eqn:Hx; cbn [IEEE.lt IEEE.limit].
  - pose proof (limit_is_clamp q) as (Hclamp & Hunit). cbv zeta in Hclamp, Hunit.
    change (@flt Q Q_ops) with Qlt_bool in Hclamp, Hunit.
    change (@fgt Q Q_ops) with (fun a b : Q => Qlt_bool b a) in Hclamp, Hunit.
    change (@of_int Q Q_ops 0) with 0%Q in Hclamp, Hunit.
    change (@of_int Q Q_ops 1) with 1%Q in Hclamp, Hunit.
    cbv beta in Hclamp, Hunit.
    destruct (Qlt_bool q 0) eqn:Hneg.
    + rewrite fgt_value, zero_value, one_value. cbn [IEEE.lt].
      change (Qlt_bool 1 0) with false in *. cbv iota in *.
      rewrite zero_value. cbn [IEEE.same IEEE.in_unit].
      repeat split; try assumption; try apply Hunit. discriminate.
    + rewrite fgt_value, Hx, one_value. cbn [IEEE.lt].
      destruct (Qlt_bool 1 q) eqn:Hbig.
      * rewrite one_value. cbn [IEEE.same IEEE.in_unit].
        repeat split; try assumption; try apply Hunit. discriminate.
      * rewrite Hx. cbn [IEEE.same IEEE.in_unit].
        repeat split; try assumption; try apply Hunit. discriminate.
  - rewrite fgt_value, Hx, one_value. cbn [IEEE.lt]. rewrite one_value.
    cbn [IEEE.same IEEE.in_unit].
    repeat split; try reflexivity; try discriminate.
  - rewrite fgt_value, zero_value, one_value. cbn [IEEE.lt].
    change (Qlt_bool 1 0) with false. cbv iota. rewrite zero_value.
    cbn [IEEE.same IEEE.in_unit].
    repeat split; try reflexivity; try discriminate.
  - rewrite fgt_value, Hx, one_value. cbn [IEEE.lt]. rewrite Hx.
    cbn [IEEE.same]. repeat split; try reflexivity. intros Hnan. now elim Hnan.
Qed.

(** C2 (amended): the threshold that [ProcessOpenGL] sets for a frame is
    the blended value, [m_AutoThreshold * m_UserThreshold * 2] in automatic
    mode and [m_UserThreshold] otherwise, limited to 0..1, and it lies in
    0..1, whenever the blended value is not NaN. *)
Theorem ProcessOpenGL_threshold_clamped
    (Texture : FFGLTextureStruct) (rest : list (option FFGLTextureStruct))
    (this : AutoThreshold F) :
  value (blended this) <> IEEE.NaN ->
  let effective_threshold :=
    m_Threshold (snd (ProcessOpenGL (Some Texture :: rest) this)) in
  IEEE.same (value effective_threshold)
    (if negb (m_Auto this =? 0)
     then IEEE.limit
            (value (fmul (fmul (m_AutoThreshold this) (m_UserThreshold this))
                      (of_int 2))) 0 1
     else IEEE.limit (value (m_UserThreshold this)) 0 1) /\
  IEEE.in_unit (value effective_threshold).
Proof.
  intros Hnan. cbv zeta. rewrite ProcessOpenGL_sets_threshold.
  unfold frame_threshold. unfold blended in Hnan.
  destruct (negb (m_Auto this =? 0)).
  - destruct (limit_value
                (fmul (fmul (m_AutoThreshold this) (m_UserThreshold this))
                   (of_int 2))) as (Hsame & Hunit & _).
    split; [exact Hsame | exact (Hunit Hnan)].
  - destruct (limit_value (m_UserThreshold this)) as (Hsame & Hunit & _).
    split; [exact Hsame | exact (Hunit Hnan)].
Qed.

(** A blended value that is NaN passes both tests and becomes the
    threshold. *)
Lemma ProcessOpenGL_threshold_of_NaN
    (Texture : FFGLTextureStruct) (rest : list (option FFGLTextureStruct))
    (this : AutoThreshold F) :
  value (blended this) = IEEE.NaN ->
  value (m_Threshold (snd (ProcessOpenGL (Some Texture :: rest) this)))
  = IEEE.NaN.
Proof.
  intros Hnan. rewrite ProcessOpenGL_sets_threshold.
  unfold frame_threshold. unfold blended in Hnan.
  destruct (negb (m_Auto this =? 0)).
  - now apply (limit_value
                 (fmul (fmul (m_AutoThreshold this) (m_UserThreshold this))
                    (of_int 2))).
  - now apply (limit_value (m_UserThreshold this)).
Qed.

End ThresholdValue.

Lemma ProcessOpenGL_threshold_clamped_witness :
  let this := after_calls IEEE.of_bits no_bits 0 calls_auto IEEE_plugin in
  let effective_threshold :=
    m_Threshold (snd (ProcessOpenGL [Some texture9] this)) in
  IEEE.same (blended this) (IEEE.Finite ((383 # 768) * (3 # 4) * 2)) /\
  IEEE.same effective_threshold
    (if negb (m_Auto this =? 0)
     then IEEE.limit
            (fmul (fmul (m_AutoThreshold this) (m_UserThreshold this))
               (of_int 2)) 0 1
     else IEEE.limit (m_UserThreshold this) 0 1) /\
  IEEE.in_unit effective_threshold.
Proof.
  split; [vm_compute; reflexivity |].
  apply (@ProcessOpenGL_threshold_clamped IEEE.float IEEE_ops (fun x => x)
           (fun x y => eq_refl) (fun x y => eq_refl) eq_refl eq_refl
           texture9 []
           (after_calls IEEE.of_bits no_bits 0 calls_auto IEEE_plugin)).
  vm_compute. discriminate.
Defined.

(** C2 fails as stated: [SetParameter] stores the 32 bits of the host as
    the user entry, and for the bits of a NaN both tests of
    [ProcessOpenGL] are false, so the threshold of the frame is NaN, which
    is not in 0..1, in manual and in automatic mode. *)
Lemma ProcessOpenGL_threshold_NaN :
  let manual := after_calls IEEE.of_bits no_bits 0 calls_NaN IEEE_plugin in
  let auto :=
    after_calls IEEE.of_bits no_bits 0 (calls_auto ++ calls_NaN) IEEE_plugin in
  m_UserThreshold manual = IEEE.NaN /\
  fst (ProcessOpenGL [Some texture9] manual) = Ok FF_SUCCESS /\
  m_Threshold (snd (ProcessOpenGL [Some texture9] manual)) = IEEE.NaN /\
  fst (ProcessOpenGL [Some texture9] auto) = Ok FF_SUCCESS /\
  m_Threshold (snd (ProcessOpenGL [Some texture9] auto)) = IEEE.NaN /\
  ~ IEEE.in_unit IEEE.NaN.
Proof.
  cbv zeta. repeat split; try (vm_compute; reflexivity).
  intros H. exact H.
Qed.

(** * The estimators and the object *)

(** C8: what [gradient], [entropySplit] and [otsu] return depends on their
    arguments only, not on the object they are called on, and the object is
    the same after the call; this holds for whatever floating point
    arithmetic and [log] are supplied. *)
Theorem estimators_stateless {F : Type} `{FloatOps F} (log : F -> F)
    (buffer : list byte) (Width Height : Z) (histogram : list Z)
    (this other : AutoThreshold F) :
  (fst (gradient buffer Width Height this)
   = fst (gradient buffer Width Height other) /\
   snd (gradient buffer Width Height this) = this) /\
  (fst (entropySplit log histogram this)
   = fst (entropySplit log histogram other) /\
   snd (entropySplit log histogram this) = this) /\
  (fst (otsu Width Height histogram this)
   = fst (otsu Width Height histogram other) /\
   snd (otsu Width Height histogram this) = this).
Proof.
  unfold gradient, entropySplit, otsu. cbn [fst snd].
  split; [| split]; split; reflexivity.
Qed.

(** * The Otsu estimator *)

Lemma otsu_scan_range {F : Type} `{FloatOps F} (omega_myu : list (F * F))
    (levels : list nat) :
  (forall i, In i levels -> (i <= 254)%nat) ->
  forall st : Z * F,
    0 <= fst st <= 254 ->
    0 <= fst (fold_left (otsu_step omega_myu) levels st) <= 254.
Proof.
  induction levels as [| i levels IH]; intros Hlevels st Hst; [exact Hst |].
  simpl fold_left. apply IH.
  - intros i' Hi'. apply Hlevels. now right.
  - unfold otsu_step. destruct st as [threshold max_sigma].
    destruct (nth i omega_myu (of_int 0, of_int 0)) as [omega_i myu_i].
    destruct (nth 255 omega_myu (of_int 0, of_int 0)) as [omega_255 myu_255].
    match goal with |- context [if fgt ?a ?b then _ else _] =>
      destruct (fgt a b) end.
    + cbn [fst]. specialize (Hlevels i (or_introl eq_refl)). lia.
    + exact Hst.
Qed.

(** C9: for every histogram and every [Width] and [Height], and whatever
    the floating point arithmetic does, [otsu] returns a level between 0
    and 254. *)
Theorem otsu_at_most_254 {F : Type} `{FloatOps F} (Width Height : Z)
    (hist : list Z) (this : AutoThreshold F) :
  0 <= fst (otsu Width Height hist this) <= 254.
Proof.
  unfold otsu. cbn [fst].
  match goal with |- context [fold_left ?f ?l ?st] =>
    pose proof (otsu_scan_range
      match map (fun i => fdiv (of_int (nth i hist 0))
                               (of_int (Width * Height)%int)) (seq 0 256) with
      | [] => []
      | prob_0 :: rest =>
          (prob_0, of_int 0) :: otsu_moments 1 prob_0 (of_int 0) rest
      end (seq 0 255)) as Hscan;
    destruct (fold_left f l st) as [threshold max_sigma] eqn:Hfold
  end.
  specialize (Hscan ltac:(intros i Hi; apply in_seq in Hi; lia) (0, of_int 0)
                    ltac:(cbn [fst]; lia)).
  rewrite Hfold in Hscan. exact Hscan.
Qed.

(** * The entropy-split estimator *)

Lemma fold_left_Qplus_inject_Z {A : Type} (f : A -> Z) (l : list A) (a : Z) :
  fold_left Qplus (map (fun i => inject_Z (f i)) l) (inject_Z a)
  = inject_Z (a + sum_over f l).
Proof.
  revert a. induction l as [| i l IH]; intros a; simpl.
  - now rewrite Z.add_0_r.
  - rewrite Qplus_inject_Z, IH. unfold sum_over. f_equal. lia.
Qed.

(** C4: when the 256 bins sum to 0, [entropySplit] returns 0 at its test
    [sum == 0], whatever [log] is: it divides by no sum and takes no
    logarithm. *)
Theorem entropySplit_empty (log : Q -> Q) (histogram : list Z)
    (this : AutoThreshold Q) :
  sum_over (fun i => nth i histogram 0) (seq 0 256) = 0 ->
  fst (entropySplit log histogram this) = 0.
Proof.
  intros Hsum. unfold entropySplit. cbn [fst]. cbv zeta.
  change (@fadd Q Q_ops) with Qplus.
  change (@of_int Q Q_ops) with inject_Z.
  rewrite (fold_left_Qplus_inject_Z (fun i => nth i histogram 0)), Hsum.
  reflexivity.
Qed.

Lemma entropySplit_empty_witness :
  fst (entropySplit (fun x => x) (repeat 0 256) initial_plugin) = 0.
Proof.
  apply (entropySplit_empty (fun x => x) (repeat 0 256) initial_plugin).
  vm_compute. reflexivity.
Defined.

(** * The histogram builder on a well-formed frame *)

Lemma incr_at_map (f : nat -> Z) (n : nat) :
  forall start k : nat,
    (k < n)%nat ->
    incr_at k (map f (seq start n))
    = Ok (map (fun g => if (g =? start + k)%nat then UShort.incr (f g) else f g)
              (seq start n)).
Proof.
  induction n as [| n IH]; intros start k Hk; [lia |].
  destruct k as [| k]; cbn [seq map incr_at].
  - rewrite Nat.add_0_r, Nat.eqb_refl. do 2 f_equal.
    apply map_ext_in. intros g Hg. apply in_seq in Hg.
    destruct (Nat.eqb_spec g start); [lia | reflexivity].
  - rewrite (IH (S start) k) by lia. cbn [bind].
    destruct (Nat.eqb_spec start (start + S k)); [lia |].
    do 2 f_equal. apply map_ext. intros g.
    now replace (S start + k)%nat with (start + S k)%nat by lia.
Qed.

Lemma count_level_snoc (g x : Z) (levels : list Z) :
  count_level g (levels ++ [x])
  = count_level g levels + (if Z.eq_dec x g then 1 else 0).
Proof.
  unfold count_level. rewrite count_occ_app. cbn [count_occ].
  destruct (Z.eq_dec x g); lia.
Qed.

Lemma incr_wrap (c : Z) : UShort.incr (UShort.wrap c) = UShort.wrap (c + 1).
Proof.
  unfold UShort.incr, UShort.wrap. now rewrite Z.add_mod_idemp_l.
Qed.

(** Counting one more pixel of level [x]. *)
Lemma tally_snoc (x : Z) (levels : list Z) :
  0 <= x < 256 ->
  incr_at (Z.to_nat x) (tally levels) = Ok (tally (levels ++ [x])).
Proof.
  intros Hx. unfold tally. rewrite incr_at_map by lia.
  f_equal. apply map_ext. intros g. rewrite count_level_snoc.
  destruct (Nat.eqb_spec g (0 + Z.to_nat x)) as [-> | Hg].
  - rewrite incr_wrap. destruct (Z.eq_dec x (Z.of_nat (0 + Z.to_nat x))); [| lia].
    reflexivity.
  - destruct (Z.eq_dec x (Z.of_nat g)); [lia |]. now rewrite Z.add_0_r.
Qed.

Lemma level_at_range (buffer : list byte) (p : Z) :
  0 <= level_at buffer p < 256.
Proof.
  unfold level_at. pose proof (rgb_range buffer (4 * p)) as Hr.
  pose proof (Z.div_mod (rgb buffer (4 * p)) 3 ltac:(lia)).
  pose proof (Z.mod_pos_bound (rgb buffer (4 * p)) 3 ltac:(lia)). lia.
Qed.

Lemma histo_pixel_ok (buffer : list byte) (Width Height p : Z)
    (levels : list Z) :
  frame buffer Width Height ->
  0 <= p < Width * Height ->
  histo_pixel buffer (4 * p) (tally levels)
  = Ok (tally (levels ++ [level_at buffer p])).
Proof.
  intros (HW & HH & Hmax & Hlen) Hp. unfold histo_pixel.
  rewrite !peek_ok by lia. cbn [bind].
  pose proof (level_at_range buffer p) as Hlevel.
  unfold level_at, rgb in *.
  pose proof (byte_at_range buffer (4 * p)).
  pose proof (byte_at_range buffer (4 * p + 1)).
  pose proof (byte_at_range buffer (4 * p + 2)).
  unfold Int.add, Int.div. unwrap.
  rewrite Z.quot_div_nonneg by lia. unwrap.
  destruct (Z.ltb_spec
    ((byte_at buffer (4 * p) + byte_at buffer (4 * p + 1)
      + byte_at buffer (4 * p + 2)) / 3) 0); [lia |].
  now apply tally_snoc.
Qed.

Lemma histo_columns (buffer : list byte) (Width Height i : Z) :
  frame buffer Width Height ->
  0 <= i < Height ->
  forall (n : nat) (j0 : Z) (levels : list Z),
    0 <= j0 -> j0 + Z.of_nat n <= Width ->
    foldM (fun j histogram =>
             histo_pixel buffer (Int.mul i (Int.mul Width 4) + Int.mul j 4)
               histogram)
          (iota 1 n j0) (tally levels)
    = Ok (tally (levels
                 ++ map (level_at buffer) (iota 1 n (i * Width + j0)))).
Proof.
  intros Hf Hi n. induction n as [| n IH]; intros j0 levels Hj0 Hn.
  - simpl. now rewrite app_nil_r.
  - cbn [iota]. rewrite foldM_cons.
    assert (Hptr : Int.mul i (Int.mul Width 4) + Int.mul j0 4
                   = 4 * (i * Width + j0)).
    { destruct Hf as (HW & HH & Hmax & Hlen).
      unfold Int.mul. rewrite (wrap_small (Width * 4)) by (int_range; nia).
      rewrite (wrap_small (i * (Width * 4))) by (int_range; nia).
      rewrite (wrap_small (j0 * 4)) by (int_range; nia). ring. }
    rewrite Hptr.
    rewrite (histo_pixel_ok buffer Width Height (i * Width + j0) levels Hf)
      by nia.
    cbn [bind]. rewrite IH by lia.
    cbn [map]. rewrite <- app_assoc. cbn [app].
    now replace (i * Width + j0 + 1) with (i * Width + (j0 + 1)) by ring.
Qed.

(** The counting loops of [histo] visit 0, 1, ..., [n - 1]. *)
Lemma count_loop {S : Type} (n : Z) (body : Z -> S -> result S) (s : S) :
  0 <= n <= Int.max_int ->
  for_loop (Z.to_nat n) 1 0 n body s = foldM body (iota 1 (Z.to_nat n) 0) s.
Proof.
  intros Hn. apply for_loop_iota; int_range; lia.
Qed.

Lemma histo_line_ok (buffer : list byte) (Width Height i : Z)
    (levels : list Z) :
  frame buffer Width Height ->
  0 <= i < Height ->
  histo_line buffer Width i (tally levels)
  = Ok (tally (levels ++ map (level_at buffer) (row_pixels Width i))).
Proof.
  intros Hf Hi. unfold histo_line, row_pixels.
  assert (HW : 0 <= Width <= Int.max_int).
  { destruct Hf as (HW & HH & Hmax & _). int_range. nia. }
  rewrite count_loop by exact HW.
  rewrite (histo_columns buffer Width Height i Hf Hi) by lia.
  now rewrite Z.add_0_r.
Qed.

Lemma histo_rows (buffer : list byte) (Width Height : Z) :
  frame buffer Width Height ->
  forall (n : nat) (i0 : Z) (levels : list Z),
    0 <= i0 -> i0 + Z.of_nat n <= Height ->
    foldM (histo_line buffer Width) (iota 1 n i0) (tally levels)
    = Ok (tally (levels
                 ++ map (level_at buffer)
                        (flat_map (row_pixels Width) (iota 1 n i0)))).
Proof.
  intros Hf n. induction n as [| n IH]; intros i0 levels Hi0 Hn.
  - simpl. now rewrite app_nil_r.
  - cbn [iota flat_map]. rewrite foldM_cons.
    rewrite (histo_line_ok buffer Width Height i0 levels Hf) by lia.
    cbn [bind]. rewrite IH by lia.
    now rewrite map_app, app_assoc.
Qed.

Lemma iota_app (step : Z) (a b : nat) (i : Z) :
  iota step (a + b) i
  = iota step a i ++ iota step b (i + step * Z.of_nat a).
Proof.
  revert i. induction a as [| a IH]; intros i.
  - simpl. now rewrite Z.mul_0_r, Z.add_0_r.
  - cbn [Nat.add iota app]. rewrite IH. do 3 f_equal. lia.
Qed.

(** Row after row, the pixel numbers are 0, 1, 2, ... *)
Lemma rows_pixels (Width : Z) (n : nat) (i0 : Z) :
  0 <= Width ->
  flat_map (row_pixels Width) (iota 1 n i0)
  = iota 1 (n * Z.to_nat Width) (i0 * Width).
Proof.
  intros HW. revert i0. induction n as [| n IH]; intros i0; [reflexivity |].
  cbn [iota flat_map Nat.mul]. rewrite iota_app, IH. unfold row_pixels.
  do 2 f_equal. lia.
Qed.

Lemma nth_gray_levels (p : nat) :
  forall buffer : list byte,
    (4 * p + 3 < length buffer)%nat ->
    nth p (gray_levels buffer) 0 = level_at buffer (Z.of_nat p).
Proof.
  induction p as [| p IH]; intros buffer Hlen.
  - destruct buffer as [| r [| g [| b [| a rest]]]]; simpl in Hlen; try lia.
    reflexivity.
  - destruct buffer as [| r [| g [| b [| a rest]]]]; simpl in Hlen; try lia.
    cbn [gray_levels nth]. rewrite IH by lia.
    unfold level_at, rgb, byte_at.
    replace (Z.to_nat (4 * Z.of_nat (S p)))
      with (S (S (S (S (Z.to_nat (4 * Z.of_nat p)))))) by lia.
    replace (Z.to_nat (4 * Z.of_nat (S p) + 1))
      with (S (S (S (S (Z.to_nat (4 * Z.of_nat p + 1)))))) by lia.
    replace (Z.to_nat (4 * Z.of_nat (S p) + 2))
      with (S (S (S (S (Z.to_nat (4 * Z.of_nat p + 2)))))) by lia.
    reflexivity.
Qed.

Lemma length_gray_levels (n : nat) :
  forall buffer : list byte,
    length buffer = (4 * n)%nat -> length (gray_levels buffer) = n.
Proof.
  induction n as [| n IH]; intros buffer Hlen.
  - destruct buffer; [reflexivity | discriminate].
  - destruct buffer as [| r [| g [| b [| a rest]]]]; simpl in Hlen; try lia.
    cbn [gray_levels length]. f_equal. apply IH. lia.
Qed.

Lemma map_nth_iota (l : list Z) (n : nat) (start : nat) :
  (start + n = length l)%nat ->
  map (fun p => nth (Z.to_nat p) l 0) (iota 1 n (Z.of_nat start))
  = skipn start l.
Proof.
  revert start. induction n as [| n IH]; intros start Hlen.
  - rewrite skipn_all2 by lia. reflexivity.
  - cbn [iota map]. rewrite Nat2Z.id.
    replace (Z.of_nat start + 1) with (Z.of_nat (S start)) by lia.
    rewrite IH by lia.
    assert (Hs : (start < length l)%nat) by lia.
    clear - Hs. revert start Hs.
    induction l as [| x l IHl]; intros start Hs; simpl in Hs; [lia |].
    destruct start as [| start]; [reflexivity |].
    cbn [nth skipn]. apply IHl. lia.
Qed.

(** The pixels of a frame, numbered in order, have the gray levels of
    [gray_levels]. *)
Lemma levels_of_frame (buffer : list byte) (n : nat) :
  length buffer = (4 * n)%nat ->
  map (level_at buffer) (iota 1 n 0) = gray_levels buffer.
Proof.
  intros Hlen.
  pose proof (length_gray_levels n buffer Hlen) as Hn.
  transitivity (map (fun p => nth (Z.to_nat p) (gray_levels buffer) 0)
                    (iota 1 n (Z.of_nat 0))).
  - apply map_ext_in. intros p Hp. apply In_iota in Hp.
    destruct Hp as (k & Hk & ->).
    rewrite nth_gray_levels by lia. f_equal. lia.
  - apply (map_nth_iota (gray_levels buffer) n 0). lia.
Qed.

Lemma tally_nil : tally [] = repeat 0 256.
Proof. vm_compute. reflexivity. Qed.

(** What [histo] leaves in the histogram on a well-formed frame. *)
Lemma histo_value {F : Type} (buffer : list byte) (Width Height : Z)
    (this : AutoThreshold F) :
  frame buffer Width Height ->
  fst (histo buffer Width Height this) = Ok (tally (gray_levels buffer)).
Proof.
  intros Hf. unfold histo. cbn [fst]. cbv zeta.
  assert (HH : 0 <= Height <= Int.max_int).
  { destruct Hf as (HW & HH & Hmax & _). int_range. nia. }
  rewrite count_loop by exact HH.
  rewrite <- tally_nil.
  rewrite (histo_rows buffer Width Height Hf) by lia.
  destruct Hf as (HW & HH' & Hmax & Hlen).
  rewrite rows_pixels by lia. cbn [app]. do 2 f_equal.
  change (0 * Width) with 0.
  apply levels_of_frame. nia.
Qed.

(** * Claims about the histogram *)


Lemma sum_over_ext_in {A : Type} (f g : A -> Z) (l : list A) :
  (forall a, In a l -> f a = g a) -> sum_over f l = sum_over g l.
Proof.
  unfold sum_over. induction l as [| a l IH]; intros Hfg; [reflexivity |].
  cbn [fold_right]. rewrite (Hfg a) by now left.
  rewrite IH; [reflexivity |]. intros a' Ha'. apply Hfg. now right.
Qed.







(** Frames made of runs of equal pixels. *)

Lemma length_solid (n : nat) (px : list byte) :
  length (solid n px) = (n * length px)%nat.
Proof.
  induction n as [| n IH]; [reflexivity |].
  cbn [solid Nat.mul]. now rewrite length_app, IH.
Qed.

Lemma length_concat_repeat {A : Type} (l : list A) (k : nat) :
  length (concat (repeat l k)) = (k * length l)%nat.
Proof.
  induction k as [| k IH]; [reflexivity |].
  cbn [repeat concat Nat.mul]. now rewrite length_app, IH.
Qed.

Lemma gray_levels_solid (n : nat) (r g b : byte) (rest : list byte) :
  gray_levels (solid n (pixel r g b) ++ rest)
  = repeat ((byte_val r + byte_val g + byte_val b) / 3) n ++ gray_levels rest.
Proof.
  induction n as [| n IH]; [reflexivity |].
  cbn [solid pixel app gray_levels repeat]. f_equal. exact IH.
Qed.

Lemma gray_levels_rows (a b k : nat) (r1 g1 b1 r2 g2 b2 : byte) :
  gray_levels
    (concat (repeat (solid a (pixel r1 g1 b1) ++ solid b (pixel r2 g2 b2)) k))
  = concat (repeat
      (repeat ((byte_val r1 + byte_val g1 + byte_val b1) / 3) a
       ++ repeat ((byte_val r2 + byte_val g2 + byte_val b2) / 3) b) k).
Proof.
  induction k as [| k IH]; [reflexivity |].
  cbn [repeat concat]. rewrite <- !app_assoc, !gray_levels_solid, IH.
  reflexivity.
Qed.

Lemma count_level_repeat (g x : Z) (n : nat) :
  count_level g (repeat x n) = if Z.eq_dec x g then Z.of_nat n else 0.
Proof.
  unfold count_level. destruct (Z.eq_dec x g) as [Heq | Hneq].
  - now rewrite count_occ_repeat_eq.
  - rewrite count_occ_repeat_neq; [reflexivity | congruence].
Qed.

Lemma count_level_app (g : Z) (l1 l2 : list Z) :
  count_level g (l1 ++ l2) = count_level g l1 + count_level g l2.
Proof. unfold count_level. rewrite count_occ_app. lia. Qed.

Lemma count_level_rows (g x y : Z) (a b k : nat) :
  count_level g (concat (repeat (repeat x a ++ repeat y b) k))
  = Z.of_nat k * ((if Z.eq_dec x g then Z.of_nat a else 0)
                  + (if Z.eq_dec y g then Z.of_nat b else 0)).
Proof.
  induction k as [| k IH]; [reflexivity |].
  cbn [repeat concat].
  rewrite count_level_app, IH, count_level_app, !count_level_repeat. lia.
Qed.

Lemma tally_ext (levels : list Z) (count : Z -> Z) :
  (forall g, count_level g levels = count g) ->
  tally levels = map (fun g => UShort.wrap (count (Z.of_nat g))) (seq 0 256).
Proof.
  intros Hcount. unfold tally. apply map_ext. intros g. now rewrite Hcount.
Qed.


Lemma frame_half256 : frame half256 256 256.
Proof.
  unfold frame, half256.
  rewrite length_concat_repeat, length_app, !length_solid.
  vm_compute. repeat split; congruence.
Qed.


Lemma tally_half256 : tally (gray_levels half256) = hist_bw.
Proof.
  unfold half256, black, white. rewrite gray_levels_rows.
  rewrite (tally_ext _ _ (fun g => count_level_rows g _ _ _ _ _)).
  vm_compute. reflexivity.
Qed.


(** * The half black, half white frame *)

Lemma histo_half256 :
  fst (histo half256 256 256 initial_plugin) = Ok hist_bw.
Proof.
  rewrite histo_value by exact frame_half256.
  apply (f_equal (@Ok (list Z))). exact tally_half256.
Qed.

Lemma otsu_hist_bw : fst (otsu 256 256 hist_bw initial_plugin) = 0.
Proof. vm_compute. reflexivity. Qed.

(** C5 (amended): the histogram of the 256x256 frame with a black left
    half and a white right half has 32768 pixels at level 0 and 32768 at
    level 255, and [otsu] returns 0 for it. *)
Theorem otsu_half256 :
  fst (histo half256 256 256 initial_plugin) = Ok hist_bw /\
  fst (otsu 256 256 hist_bw initial_plugin) = 0.
Proof. split; [exact histo_half256 | exact otsu_hist_bw]. Qed.

(** C5 fails as stated: the split that [otsu] returns for this frame is
    neither 127 nor 128. *)
Lemma otsu_half256_not_mid :
  fst (histo half256 256 256 initial_plugin) = Ok hist_bw /\
  ~ (fst (otsu 256 256 hist_bw initial_plugin) = 127 \/
     fst (otsu 256 256 hist_bw initial_plugin) = 128).
Proof.
  split; [exact histo_half256 |].
  rewrite otsu_hist_bw. intros [H | H]; discriminate.
Qed.

(** * Further properties of the estimators *)

(** A scan that keeps the best index seen so far returns the index it
    started with or one of the indices it visited. *)
Lemma scan_index_range {A : Type} (f : A * Z -> nat -> A * Z) (hi : nat) :
  (forall st t, snd (f st t) = snd st \/ snd (f st t) = Z.of_nat t) ->
  forall (l : list nat) (st : A * Z),
    (forall t, In t l -> (t <= hi)%nat) ->
    0 <= snd st <= Z.of_nat hi ->
    0 <= snd (fold_left f l st) <= Z.of_nat hi.
Proof.
  intros Hf l. induction l as [| t l IH]; intros st Hl Hst; [exact Hst |].
  cbn [fold_left]. apply IH.
  - intros t' Ht'. apply Hl. now right.
  - specialize (Hl t (or_introl eq_refl)).
    destruct (Hf st t) as [-> | ->]; lia.
Qed.

(** X1: [entropySplit] returns a level between 0 and 255, for every
    histogram, whatever the floating point arithmetic and [log] do. *)
Theorem entropySplit_in_range {F : Type} `{FloatOps F} (log : F -> F)
    (histogram : list Z) (this : AutoThreshold F) :
  0 <= fst (entropySplit log histogram this) <= 255.
Proof.
  unfold entropySplit. cbn [fst]. cbv zeta.
  match goal with |- context [if ?c then _ else _] => destruct c end;
    [lia |].
  match goal with |- context [fold_left ?f ?l ?st] =>
    pose proof (scan_index_range f 255) as Hscan;
    specialize (Hscan
      ltac:(intros [djMax tMax] t; cbn beta iota;
            match goal with |- context [if ?c then _ else _] =>
              destruct c end; cbn [snd]; auto)
      l st
      ltac:(intros t Ht; apply in_seq in Ht; lia)
      ltac:(cbn [snd]; lia));
    destruct (fold_left f l st) as [djMax tMax]
  end.
  exact Hscan.
Qed.

Lemma for_loop_none {S : Type} (fuel : nat) (step i bound : Z)
    (body : Z -> S -> result S) (s : S) :
  bound <= i -> for_loop fuel step i bound body s = Ok s.
Proof.
  intros Hi. destruct fuel; simpl; destruct (Z.ltb_spec i bound);
    try reflexivity; lia.
Qed.

(** X2: for a frame without pixels ([Width] or [Height] not positive)
    [histo] returns the all-zero histogram and reads no byte, whatever the
    buffer is. *)
Theorem histo_no_pixels {F : Type} (buffer : list byte) (Width Height : Z)
    (this : AutoThreshold F) :
  Width <= Int.max_int -> Height <= Int.max_int ->
  Width <= 0 \/ Height <= 0 ->
  fst (histo buffer Width Height this) = Ok (repeat 0 256).
Proof.
  intros HW HH Hempty. unfold histo. cbn [fst]. cbv zeta.
  destruct (Z.le_gt_cases Height 0) as [Hh | Hh].
  - now apply for_loop_none.
  - destruct Hempty as [Hw | Hh']; [| lia].
    rewrite count_loop by lia. apply foldM_skip.
    intros i histogram. unfold histo_line. now apply for_loop_none.
Qed.

Lemma histo_no_pixels_witness :
  fst (histo [] 0 480 initial_plugin) = Ok (repeat 0 256).
Proof.
  apply (histo_no_pixels [] 0 480 initial_plugin).
  - vm_compute. congruence.
  - vm_compute. congruence.
  - left. vm_compute. congruence.
Defined.

(** Two buffers with the same R, G and B bytes. *)
Lemma rgb_same (b1 b2 : list byte) (p : Z) :
  (forall off, off mod 4 <> 3 -> byte_at b1 off = byte_at b2 off) ->
  rgb b1 (4 * p) = rgb b2 (4 * p).
Proof.
  intros Hsame. unfold rgb.
  rewrite !(Hsame _); [reflexivity | | |].
  - rewrite Z.add_comm, Z.mul_comm, Z.mod_add by lia. discriminate.
  - rewrite Z.add_comm, Z.mul_comm, Z.mod_add by lia. discriminate.
  - rewrite Z.mul_comm, Z.mod_mul by lia. discriminate.
Qed.

Lemma exy_mid_same (b1 b2 : list byte) (Width : Z) (p : Z * Z) :
  (forall off, off mod 4 <> 3 -> byte_at b1 off = byte_at b2 off) ->
  exy_of b1 Width p = exy_of b2 Width p /\
  mid_of b1 Width p = mid_of b2 Width p.
Proof.
  intros Hsame.
  unfold exy_of, left_of, right_of, top_of, bot_of, mid_of, pixel_ptr.
  now rewrite !(rgb_same b1 b2 _ Hsame).
Qed.

Lemma sum_over_ext {A : Type} (f g : A -> Z) (l : list A) :
  (forall a, f a = g a) -> sum_over f l = sum_over g l.
Proof. intros Hfg. apply sum_over_ext_in. intros a _. apply Hfg. Qed.

(** X3: [gradient] never looks at the alpha channel: two well-formed
    frames of the same size that agree on every R, G and B byte get the
    same estimate. *)
Theorem gradient_ignores_alpha (b1 b2 : list byte) (Width Height : Z)
    (this : AutoThreshold Q) :
  frame b1 Width Height -> frame b2 Width Height ->
  (forall off, off mod 4 <> 3 -> byte_at b1 off = byte_at b2 off) ->
  fst (gradient b1 Width Height this) = fst (gradient b2 Width Height this).
Proof.
  intros Hf1 Hf2 Hsame.
  rewrite (gradient_value b1 Width Height this Hf1).
  rewrite (gradient_value b2 Width Height this Hf2).
  unfold total_exy, total_exy_fxy.
  rewrite (sum_over_ext (exy_of b1 Width) (exy_of b2 Width))
    by (intros p; apply (exy_mid_same b1 b2 Width p Hsame)).
  rewrite (sum_over_ext (fun p => exy_of b1 Width p * mid_of b1 Width p)
                        (fun p => exy_of b2 Width p * mid_of b2 Width p)).
  - reflexivity.
  - intros p. destruct (exy_mid_same b1 b2 Width p Hsame) as [-> ->].
    reflexivity.
Qed.

(** X4: [histo] never looks at the alpha channel either. *)
Theorem histo_ignores_alpha {F : Type} (b1 b2 : list byte) (Width Height : Z)
    (this : AutoThreshold F) :
  frame b1 Width Height -> frame b2 Width Height ->
  (forall off, off mod 4 <> 3 -> byte_at b1 off = byte_at b2 off) ->
  fst (histo b1 Width Height this) = fst (histo b2 Width Height this).
Proof.
  intros Hf1 Hf2 Hsame.
  rewrite (histo_value b1 Width Height this Hf1).
  rewrite (histo_value b2 Width Height this Hf2).
  destruct Hf1 as (HW & HH & _ & Hlen1). destruct Hf2 as (_ & _ & _ & Hlen2).
  rewrite <- (levels_of_frame b1 (Z.to_nat (Width * Height))) by nia.
  rewrite <- (levels_of_frame b2 (Z.to_nat (Width * Height))) by nia.
  do 2 f_equal. apply map_ext. intros p. unfold level_at.
  now rewrite (rgb_same b1 b2 p Hsame).
Qed.

Lemma nth_with_alpha (a : byte) (k : nat) :
  forall buffer : list byte,
    (k mod 4 <> 3)%nat ->
    nth k (with_alpha a buffer) x00 = nth k buffer x00.
Proof.
  induction k as [k IH] using lt_wf_ind. intros buffer Hk.
  destruct buffer as [| r [| g [| b [| al rest]]]]; try reflexivity.
  cbn [with_alpha].
  destruct k as [| [| [| [| k]]]]; try reflexivity.
  - exfalso. apply Hk. reflexivity.
  - cbn [nth]. apply IH; [lia |].
    replace (S (S (S (S k)))) with (k + 1 * 4)%nat in Hk by lia.
    now rewrite Nat.Div0.mod_add in Hk.
Qed.

Lemma length_with_alpha (a : byte) (n : nat) :
  forall buffer : list byte,
    length buffer = n -> length (with_alpha a buffer) = n.
Proof.
  induction n as [n IH] using lt_wf_ind. intros buffer Hlen.
  destruct buffer as [| r [| g [| b [| al rest]]]]; try exact Hlen.
  cbn [with_alpha length] in *. rewrite (IH (length rest)); lia.
Qed.

Lemma byte_at_with_alpha (a : byte) (buffer : list byte) (off : Z) :
  off mod 4 <> 3 -> byte_at buffer off = byte_at (with_alpha a buffer) off.
Proof.
  intros Hoff. unfold byte_at. rewrite nth_with_alpha; [reflexivity |].
  destruct (Z.le_gt_cases 0 off) as [Hpos | Hneg].
  - intros Hk. apply Hoff.
    rewrite <- (Z2Nat.id off Hpos).
    change 4 with (Z.of_nat 4). rewrite <- Nat2Z.inj_mod, Hk. reflexivity.
  - replace (Z.to_nat off) with 0%nat by lia. discriminate.
Qed.

Lemma frame_with_alpha (a : byte) (buffer : list byte) (Width Height : Z) :
  frame buffer Width Height -> frame (with_alpha a buffer) Width Height.
Proof.
  intros (HW & HH & Hmax & Hlen). repeat split; try assumption.
  now rewrite (length_with_alpha a (length buffer) buffer eq_refl).
Qed.

Lemma gradient_ignores_alpha_witness :
  fst (gradient frame9 9 9 initial_plugin)
  = fst (gradient (with_alpha x00 frame9) 9 9 initial_plugin).
Proof.
  apply (gradient_ignores_alpha frame9 (with_alpha x00 frame9) 9 9
           initial_plugin).
  - concrete_frame.
  - apply frame_with_alpha. concrete_frame.
  - intros off Hoff. now apply byte_at_with_alpha.
Defined.

Lemma histo_ignores_alpha_witness :
  fst (histo frame9 9 9 initial_plugin)
  = fst (histo (with_alpha x00 frame9) 9 9 initial_plugin).
Proof.
  apply (histo_ignores_alpha frame9 (with_alpha x00 frame9) 9 9
           initial_plugin).
  - concrete_frame.
  - apply frame_with_alpha. concrete_frame.
  - intros off Hoff. now apply byte_at_with_alpha.
Defined.

(** Frames of one colour. *)

Lemma nth_solid (c : byte) (n : nat) :
  forall k : nat,
    (k < 4 * n)%nat -> (k mod 4 <> 3)%nat ->
    nth k (solid n (pixel c c c)) x00 = c.
Proof.
  induction n as [| n IH]; intros k Hk Hmod; [lia |].
  cbn [solid pixel app].
  destruct k as [| [| [| [| k]]]]; try reflexivity.
  - exfalso. apply Hmod. reflexivity.
  - cbn [nth]. apply IH; [lia |].
    replace (S (S (S (S k)))) with (k + 1 * 4)%nat in Hmod by lia.
    now rewrite Nat.Div0.mod_add in Hmod.
Qed.

Lemma rgb_solid (c : byte) (n : nat) (p : Z) :
  0 <= p < Z.of_nat n ->
  rgb (solid n (pixel c c c)) (4 * p) = 3 * byte_val c.
Proof.
  intros Hp. unfold rgb, byte_at.
  assert (H0 : (Z.to_nat (4 * p) = 4 * Z.to_nat p)%nat) by lia.
  assert (H1 : (Z.to_nat (4 * p + 1) = 4 * Z.to_nat p + 1)%nat) by lia.
  assert (H2 : (Z.to_nat (4 * p + 2) = 4 * Z.to_nat p + 2)%nat) by lia.
  rewrite H0, H1, H2.
  rewrite !nth_solid; try lia.
  - rewrite Nat.add_comm, Nat.mul_comm, Nat.Div0.mod_add. discriminate.
  - rewrite Nat.add_comm, Nat.mul_comm, Nat.Div0.mod_add. discriminate.
  - rewrite Nat.mul_comm, Nat.Div0.mod_mul. discriminate.
Qed.

Lemma sum_over_const {A : Type} (f : A -> Z) (c : Z) (l : list A) :
  (forall a, In a l -> f a = c) -> sum_over f l = c * Z.of_nat (length l).
Proof.
  unfold sum_over. induction l as [| a l IH]; intros Hf.
  - cbn. lia.
  - cbn [fold_right length]. rewrite (Hf a) by now left.
    rewrite IH by (intros a' Ha'; apply Hf; now right). lia.
Qed.

Lemma length_iota (step : Z) (n : nat) (i : Z) : length (iota step n i) = n.
Proof.
  revert i. induction n as [| n IH]; intros i; [reflexivity |].
  cbn [iota length]. now rewrite IH.
Qed.

Lemma sample_points_nonempty (Width Height : Z) :
  9 <= Width -> 9 <= Height ->
  (1 <= length (sample_points Width Height))%nat.
Proof.
  intros HW HH. unfold sample_points, samples.
  rewrite length_prod, !length_iota.
  pose proof (Z.div_mod (Width - 5) 4 ltac:(lia)).
  pose proof (Z.mod_pos_bound (Width - 5) 4 ltac:(lia)).
  pose proof (Z.div_mod (Height - 5) 4 ltac:(lia)).
  pose proof (Z.mod_pos_bound (Height - 5) 4 ltac:(lia)).
  nia.
Qed.

(** X5: on a frame of one gray level [g] with at least 9 rows and 9
    columns, [gradient] returns [(3 g - 1) / 768] when [g] is not 0, and 0
    for the black frame: the two rows that are added to [top] make every
    sampled pixel an edge of weight [6 g]. *)
Theorem gradient_uniform (c : byte) (Width Height : Z)
    (this : AutoThreshold Q) :
  9 <= Width -> 9 <= Height -> 4 * Width * Height <= Int.max_int ->
  fst (gradient (solid (Z.to_nat (Width * Height)) (pixel c c c))
         Width Height this)
  = Ok (inject_Z (Z.max 0 (3 * byte_val c - 1)) / inject_Z 768)%Q.
Proof.
  intros HW HH Hmax.
  set (buffer := solid (Z.to_nat (Width * Height)) (pixel c c c)).
  assert (Hf : frame buffer Width Height).
  { unfold frame, buffer. rewrite length_solid. cbn [pixel length].
    repeat split; nia. }
  rewrite (gradient_value buffer Width Height this Hf).
  pose proof (byte_val_range c) as Hc.
  set (g := byte_val c) in *.
  assert (Hrgb : forall i j, 0 <= i < Height -> 0 <= j < Width ->
                             rgb buffer (pixel_ptr Width i j) = 3 * g).
  { intros i j Hi Hj. unfold pixel_ptr, buffer. apply rgb_solid. nia. }
  assert (Hpt : forall p, In p (sample_points Width Height) ->
                exy_of buffer Width p = 6 * g /\ mid_of buffer Width p = 3 * g).
  { intros [i j] Hp. apply In_sample_points in Hp.
    unfold exy_of, left_of, right_of, top_of, bot_of, mid_of, fst, snd.
    rewrite !Hrgb by lia. lia. }
  unfold total_exy, total_exy_fxy.
  rewrite (sum_over_const _ (6 * g * (3 * g)))
    by (intros p Hp; destruct (Hpt p Hp) as [-> ->]; reflexivity).
  rewrite (sum_over_const _ (6 * g)) by (intros p Hp; apply (Hpt p Hp)).
  pose proof (sample_points_nonempty Width Height HW HH) as Hn.
  set (n := Z.of_nat (length (sample_points Width Height))) in *.
  do 3 f_equal.
  destruct (Z.eq_dec g 0) as [-> | Hg].
  - reflexivity.
  - rewrite Z.max_r by lia. rewrite Z.quot_div_nonneg by nia.
    symmetry. apply (Z.div_unique _ _ _ (6 * g * n - 3 * g + 1)); nia.
Qed.

Lemma gradient_uniform_witness :
  fst (gradient (solid (Z.to_nat (9 * 9)) (pixel x80 x80 x80)) 9 9
         initial_plugin)
  = Ok (inject_Z (Z.max 0 (3 * byte_val x80 - 1)) / inject_Z 768)%Q.
Proof.
  apply (gradient_uniform x80 9 9 initial_plugin); vm_compute; congruence.
Defined.

(** * [otsu] on an image of one gray level *)

Lemma map_nth_seq {A B : Type} (f : A -> B) (d : A) (l : list A) :
  map (fun i => f (nth i l d)) (seq 0 (length l)) = map f l.
Proof.
  apply (nth_ext _ _ (f d) (f d)).
  - now rewrite !length_map, length_seq.
  - intros i Hi. rewrite length_map, length_seq in Hi.
    rewrite (map_nth f l d i).
    rewrite (nth_indep _ (f d) ((fun i => f (nth i l d)) 0%nat))
      by now rewrite length_map, length_seq.
    rewrite (map_nth (fun i => f (nth i l d)) (seq 0 (length l)) 0%nat i).
    now rewrite seq_nth.
Qed.

Lemma moments_flat (prob : list Q) :
  Forall (fun p => p == 0)%Q prob ->
  forall (i : Z) (omega myu omega0 : Q),
    (omega == omega0)%Q ->
    Forall (fun e => fst e == omega0)%Q (otsu_moments i omega myu prob).
Proof.
  induction 1 as [| p prob Hp Hprob IH]; intros i omega myu omega0 Homega;
    cbn [otsu_moments]; constructor.
  - cbn [fst]. change (@fadd Q Q_ops) with Qplus. rewrite Hp, Homega.
    apply Qplus_0_r.
  - apply IH. change (@fadd Q Q_ops) with Qplus. rewrite Hp, Homega.
    apply Qplus_0_r.
Qed.

Lemma moments_step (before after : list Q) (p : Q) :
  Forall (fun p => p == 0)%Q before -> (p == 1)%Q ->
  Forall (fun p => p == 0)%Q after ->
  forall (i : Z) (omega myu : Q),
    (omega == 0)%Q ->
    Forall (fun e => fst e == 0 \/ fst e == 1)%Q
      (otsu_moments i omega myu (before ++ p :: after)).
Proof.
  induction 1 as [| q before Hq Hbefore IH]; intros Hp Hafter i omega myu Homega.
  - cbn [app otsu_moments]. change (@fadd Q Q_ops) with Qplus.
    assert (Hone : (omega + p == 1)%Q).
    { rewrite Homega, Hp. reflexivity. }
    constructor; [right; exact Hone |].
    eapply Forall_impl; [| apply (moments_flat after Hafter _ _ _ 1%Q Hone)].
    intros e He. now right.
  - cbn [app otsu_moments]. change (@fadd Q Q_ops) with Qplus.
    assert (Hzero : (omega + q == 0)%Q).
    { rewrite Homega, Hq. reflexivity. }
    constructor; [left; exact Hzero |].
    now apply IH.
Qed.

Lemma otsu_step_flat (omega_myu : list (Q * Q)) (i : nat) :
  Forall (fun e => fst e == 0 \/ fst e == 1)%Q omega_myu ->
  otsu_step omega_myu (0, of_int 0) i = (0, of_int 0).
Proof.
  intros Hall. unfold otsu_step.
  assert (Hi : (fst (nth i omega_myu (of_int 0, of_int 0)) == 0 \/
                fst (nth i omega_myu (of_int 0, of_int 0)) == 1)%Q).
  { destruct (Nat.lt_ge_cases i (length omega_myu)) as [Hlt | Hge].
    - rewrite Forall_forall in Hall. apply Hall. now apply nth_In.
    - rewrite nth_overflow by exact Hge. left. reflexivity. }
  destruct (nth i omega_myu (of_int 0, of_int 0)) as [omega_i myu_i].
  destruct (nth 255 omega_myu (of_int 0, of_int 0)) as [omega_255 myu_255].
  cbn [fst] in Hi.
  change (@feq Q Q_ops) with Qeq_bool. change (@of_int Q Q_ops) with inject_Z.
  assert (Hflat : negb (Qeq_bool omega_i (inject_Z 0))
                  && negb (Qeq_bool omega_i (inject_Z 1)) = false).
  { destruct Hi as [Hi | Hi]; apply Qeq_bool_iff in Hi.
    - change (inject_Z 0) with 0%Q. now rewrite Hi.
    - change (inject_Z 1) with 1%Q. rewrite Hi. apply andb_false_r. }
  rewrite Hflat. reflexivity.
Qed.

Lemma fold_left_fixed {A B : Type} (f : A -> B -> A) (l : list B) (st : A) :
  (forall i, f st i = st) -> fold_left f l st = st.
Proof.
  intros Hf. induction l as [| i l IH]; [reflexivity |].
  cbn [fold_left]. now rewrite Hf.
Qed.

(** X6: for the histogram of an image of one gray level (all [n] pixels
    in one bin, [n = Width * Height] at most 65535) [otsu] returns 0:
    every class weight is 0 or 1, so no level scores above 0. *)
Theorem otsu_single_level (before after : nat) (n Width Height : Z)
    (this : AutoThreshold Q) :
  (before + 1 + after = 256)%nat ->
  0 < n <= 65535 -> Width * Height = n ->
  fst (otsu Width Height (repeat 0 before ++ n :: repeat 0 after) this) = 0.
Proof.
  intros Hlen Hn HWH. unfold otsu. cbn [fst]. cbv zeta.
  assert (Hmul : Int.mul Width Height = n).
  { unfold Int.mul. rewrite HWH. apply wrap_small. int_range. lia. }
  rewrite Hmul.
  set (hist := repeat 0 before ++ n :: repeat 0 after).
  assert (Hhist : length hist = 256%nat).
  { unfold hist. rewrite length_app. cbn [length]. rewrite !repeat_length. lia. }
  rewrite <- Hhist at 1.
  rewrite (map_nth_seq (fun h => fdiv (of_int h) (of_int n)) 0 hist).
  unfold hist. rewrite map_app. cbn [map]. rewrite !map_repeat.
  change (@fdiv Q Q_ops) with Qdiv. change (@of_int Q Q_ops) with inject_Z.
  assert (Hzero : (inject_Z 0 / inject_Z n == 0)%Q).
  { unfold Qdiv. apply Qmult_0_l. }
  assert (Hone : (inject_Z n / inject_Z n == 1)%Q).
  { apply Qmult_inv_r. unfold Qeq, inject_Z. simpl. lia. }
  assert (Hzeros : forall k, Forall (fun p => p == 0)%Q
                               (repeat (inject_Z 0 / inject_Z n)%Q k)).
  { intros k. apply Forall_forall. intros p Hp.
    apply repeat_spec in Hp. now subst p. }
  match goal with |- context [fold_left (otsu_step ?om) _ _] =>
    assert (Hall : Forall (fun e => fst e == 0 \/ fst e == 1)%Q om)
  end.
  { destruct before as [| before]; cbn [repeat app].
    - constructor; [right; exact Hone |].
      eapply Forall_impl;
        [| apply (moments_flat _ (Hzeros after) 1 _ (inject_Z 0) 1%Q Hone)].
      intros e He. now right.
    - constructor; [left; exact Hzero |].
      apply moments_step; auto. }
  rewrite fold_left_fixed; [reflexivity |].
  intros i. now apply otsu_step_flat.
Qed.

Lemma otsu_single_level_witness :
  fst (otsu 9 9 (repeat 0 128 ++ 81 :: repeat 0 127) initial_plugin) = 0.
Proof.
  apply (otsu_single_level 128 127 81 9 9 initial_plugin).
  - reflexivity.
  - vm_compute. split; congruence.
  - reflexivity.
Defined.

(** * [ProcessOpenGL] frame after frame *)

(** The estimate of a well-formed frame is a number of 768ths. *)
Lemma gradient_estimate (buffer : list byte) (Width Height : Z)
    (this : AutoThreshold Q) :
  frame buffer Width Height ->
  exists t : Z,
    0 <= t <= 765 /\
    fst (gradient buffer Width Height this)
    = Ok (inject_Z t / inject_Z 768)%Q.
Proof.
  intros Hf.
  exists (Z.quot (total_exy_fxy buffer Width Height)
                 (total_exy buffer Width Height + 1)).
  split; [| now apply gradient_value].
  pose proof (totals_bound buffer Width (sample_points Width Height))
    as (Hs & Hlo & Hhi).
  fold (total_exy buffer Width Height) in Hs, Hhi.
  fold (total_exy_fxy buffer Width Height) in Hlo, Hhi.
  rewrite Z.quot_div_nonneg by lia. split.
  - apply Z.div_pos; lia.
  - apply Z.div_le_upper_bound; lia.
Qed.

Lemma estimate_in_unit (t : Z) :
  0 <= t <= 765 -> (0 <= inject_Z t / inject_Z 768 <= 1)%Q.
Proof.
  intros Ht. unfold Qle, Qdiv, Qmult, Qinv, inject_Z. simpl. lia.
Qed.

(** What [ProcessOpenGL] does, case by case. *)
Lemma ProcessOpenGL_manual {F : Type} `{FloatOps F}
    (Texture : FFGLTextureStruct) (rest : list (option FFGLTextureStruct))
    (this : AutoThreshold F) :
  m_Auto this = 0 ->
  ProcessOpenGL (Some Texture :: rest) this
  = (Ok FF_SUCCESS, set_Threshold (frame_threshold this) this).
Proof.
  intros Hauto. unfold ProcessOpenGL.
  change (m_Auto (set_Threshold (frame_threshold this) this))
    with (m_Auto this).
  now rewrite Hauto.
Qed.

Lemma ProcessOpenGL_auto {F : Type} `{FloatOps F}
    (Texture : FFGLTextureStruct) (rest : list (option FFGLTextureStruct))
    (this : AutoThreshold F) (a : F) :
  m_Auto this <> 0 ->
  fst (gradient (pixels Texture) (Width Texture) (Height Texture) this) = Ok a ->
  ProcessOpenGL (Some Texture :: rest) this
  = (Ok FF_SUCCESS,
     set_AutoThreshold a (set_Threshold (frame_threshold this) this)).
Proof.
  intros Hauto Ha. unfold ProcessOpenGL.
  change (m_Auto (set_Threshold (frame_threshold this) this))
    with (m_Auto this).
  destruct (Z.eqb_spec (m_Auto this) 0) as [Heq | _]; [contradiction |].
  cbn [negb].
  change (fst (gradient (pixels Texture) (Width Texture) (Height Texture)
                 (set_Threshold (frame_threshold this) this)) = Ok a) in Ha.
  pose proof (gradient_this (pixels Texture) (Width Texture) (Height Texture)
                (set_Threshold (frame_threshold this) this)) as Hthis.
  destruct (gradient (pixels Texture) (Width Texture) (Height Texture)
              (set_Threshold (frame_threshold this) this)) as [r this1].
  cbn [fst snd] in Ha, Hthis. subst r this1. reflexivity.
Qed.

(** X7: on well-formed textures [ProcessOpenGL] never faults; it returns
    [FF_FAIL] when there is no input texture or the first one is null,
    and [FF_SUCCESS] otherwise. *)
Theorem ProcessOpenGL_result
    (inputTextures : list (option FFGLTextureStruct))
    (this : AutoThreshold Q) :
  call_ok (CallProcessOpenGL inputTextures) ->
  fst (ProcessOpenGL inputTextures this)
  = Ok match inputTextures with
       | Some _ :: _ => FF_SUCCESS
       | _ => FF_FAIL
       end.
Proof.
  intros Hok. destruct inputTextures as [| [tex |] rest]; try reflexivity.
  cbn [call_ok] in Hok. unfold texture_ok in Hok.
  destruct (Z.eq_dec (m_Auto this) 0) as [Hauto | Hauto].
  - now rewrite ProcessOpenGL_manual.
  - destruct (gradient_estimate _ _ _ this Hok) as (t & _ & Ht).
    now rewrite (ProcessOpenGL_auto tex rest this _ Hauto Ht).
Qed.

Lemma ProcessOpenGL_result_witness :
  fst (ProcessOpenGL [Some texture9] initial_plugin) = Ok FF_SUCCESS.
Proof.
  apply (ProcessOpenGL_result [Some texture9] initial_plugin).
  unfold call_ok, texture_ok, texture9, pixels, Width, Height.
  concrete_frame.
Defined.

(** The members that [ProcessOpenGL] can change. *)
Lemma ProcessOpenGL_footprint {F : Type} `{FloatOps F}
    (inputTextures : list (option FFGLTextureStruct))
    (this : AutoThreshold F) :
  let after := snd (ProcessOpenGL inputTextures this) in
  after = set_AutoThreshold (m_AutoThreshold after)
            (set_Threshold (m_Threshold after) this) /\
  (fst (ProcessOpenGL inputTextures this) = Ok FF_FAIL -> after = this) /\
  (m_Auto this = 0 -> m_AutoThreshold after = m_AutoThreshold this).
Proof.
  cbv zeta. destruct this as [th ut at_ sm tt ch au r1 g1 b1 a1 r2 g2 b2 a2 hi].
  destruct inputTextures as [| [tex |] rest];
    try (cbn; repeat split; reflexivity).
  destruct (Z.eq_dec au 0) as [Hauto | Hauto].
  - rewrite ProcessOpenGL_manual by exact Hauto.
    cbn. repeat split; try reflexivity. discriminate.
  - unfold ProcessOpenGL. cbn [m_Auto set_Threshold].
    destruct (Z.eqb_spec au 0) as [Heq | _]; [contradiction |].
    cbn [negb].
    match goal with |- context [gradient ?b ?w ?h ?s] =>
      pose proof (gradient_this b w h s) as Hthis;
      destruct (gradient b w h s) as [r this1]
    end.
    cbn [snd] in Hthis. subst this1.
    destruct r; cbn; repeat split; try reflexivity; try discriminate;
      intros; contradiction.
Qed.

(** X8: whatever its input, [ProcessOpenGL] changes no member of the
    object other than [m_Threshold] and [m_AutoThreshold]; it changes
    nothing at all when it fails, and leaves [m_AutoThreshold] alone in
    manual mode. *)
Theorem ProcessOpenGL_changes_thresholds_only {F : Type} `{FloatOps F}
    (inputTextures : list (option FFGLTextureStruct))
    (this : AutoThreshold F) :
  let after := snd (ProcessOpenGL inputTextures this) in
  after = set_AutoThreshold (m_AutoThreshold after)
            (set_Threshold (m_Threshold after) this) /\
  (fst (ProcessOpenGL inputTextures this) = Ok FF_FAIL -> after = this) /\
  (m_Auto this = 0 -> m_AutoThreshold after = m_AutoThreshold this).
Proof. apply ProcessOpenGL_footprint. Qed.

(** X9: in automatic mode, on a well-formed texture, [ProcessOpenGL]
    stores the estimate that [gradient] returns for the texture in
    [m_AutoThreshold], and that estimate lies in 0..1. *)
Theorem ProcessOpenGL_stores_estimate
    (Texture : FFGLTextureStruct) (rest : list (option FFGLTextureStruct))
    (this : AutoThreshold Q) :
  m_Auto this <> 0 ->
  texture_ok Texture ->
  let after := snd (ProcessOpenGL (Some Texture :: rest) this) in
  fst (gradient (pixels Texture) (Width Texture) (Height Texture) this)
  = Ok (m_AutoThreshold after) /\
  (0 <= m_AutoThreshold after <= 1)%Q.
Proof.
  intros Hauto Hok. cbv zeta.
  destruct (gradient_estimate _ _ _ this Hok) as (t & Ht & Hg).
  rewrite (ProcessOpenGL_auto Texture rest this _ Hauto Hg).
  cbn [snd set_AutoThreshold m_AutoThreshold].
  split; [exact Hg | now apply estimate_in_unit].
Qed.

(** X10: the threshold of a frame is made from the estimate of the frame
    before it.  In automatic mode, after a frame [first] whose estimate is
    [a] and any next frame, [m_Threshold] is
    [clamp(a * m_UserThreshold * 2, 0, 1)], whatever the next frame
    holds. *)
Theorem ProcessOpenGL_one_frame_late
    (first next : FFGLTextureStruct)
    (rest1 rest2 : list (option FFGLTextureStruct))
    (this : AutoThreshold Q) (a : Q) :
  m_Auto this <> 0 ->
  fst (gradient (pixels first) (Width first) (Height first) this) = Ok a ->
  let after1 := snd (ProcessOpenGL (Some first :: rest1) this) in
  let after2 := snd (ProcessOpenGL (Some next :: rest2) after1) in
  (m_Threshold after2 == clamp (a * m_UserThreshold this * 2) 0 1)%Q.
Proof.
  intros Hauto Ha. cbv zeta.
  rewrite ProcessOpenGL_sets_threshold.
  rewrite (ProcessOpenGL_auto first rest1 this a Hauto Ha). cbn [snd].
  unfold frame_threshold.
  cbn [m_Auto m_AutoThreshold m_UserThreshold set_AutoThreshold set_Threshold].
  destruct (Z.eqb_spec (m_Auto this) 0) as [Heq | _]; [contradiction |].
  cbn [negb].
  apply (limit_is_clamp (a * m_UserThreshold this * 2)%Q).
Qed.

Lemma ProcessOpenGL_stores_estimate_witness :
  let after := snd (ProcessOpenGL [Some texture9] auto_plugin) in
  fst (gradient (pixels texture9) (Width texture9) (Height texture9)
         auto_plugin)
  = Ok (m_AutoThreshold after) /\
  (0 <= m_AutoThreshold after <= 1)%Q.
Proof.
  apply (ProcessOpenGL_stores_estimate texture9 [] auto_plugin).
  - vm_compute. congruence.
  - unfold texture_ok, texture9, pixels, Width, Height. concrete_frame.
Defined.

Lemma ProcessOpenGL_one_frame_late_witness :
  let after1 := snd (ProcessOpenGL [Some gray9] auto_plugin) in
  let after2 := snd (ProcessOpenGL [Some texture9] after1) in
  (m_Threshold after2
   == clamp ((383 # 768) * m_UserThreshold auto_plugin * 2) 0 1)%Q.
Proof.
  apply (ProcessOpenGL_one_frame_late gray9 texture9 [] [] auto_plugin
           (383 # 768)%Q).
  - vm_compute. congruence.
  - vm_compute. reflexivity.
Defined.

(** * The parameters *)

Lemma parameter_cases (n : Z) :
  (n < 0 \/ 12 < n) \/
  n = FFPARAM_Threshold \/ n = FFPARAM_Smoothness \/ n = FFPARAM_Auto \/
  n = FFPARAM_TwoTone \/ n = FFPARAM_Chroma \/
  n = FFPARAM_Red1 \/ n = FFPARAM_Grn1 \/ n = FFPARAM_Blu1 \/ n = FFPARAM_Alf1 \/
  n = FFPARAM_Red2 \/ n = FFPARAM_Grn2 \/ n = FFPARAM_Blu2 \/ n = FFPARAM_Alf2.
Proof.
  unfold FFPARAM_Threshold, FFPARAM_Smoothness, FFPARAM_Auto, FFPARAM_TwoTone,
    FFPARAM_Chroma, FFPARAM_Red1, FFPARAM_Grn1, FFPARAM_Blu1, FFPARAM_Alf1,
    FFPARAM_Red2, FFPARAM_Grn2, FFPARAM_Blu2, FFPARAM_Alf2.
  lia.
Qed.

(** Case analysis on a parameter number. *)
Ltac parameter_case n Hn :=
  let Hcase := fresh "Hcase" in
  destruct (parameter_cases n) as [Hn | Hcase];
  [| unfold FFPARAM_Threshold, FFPARAM_Smoothness, FFPARAM_Auto,
       FFPARAM_TwoTone, FFPARAM_Chroma, FFPARAM_Red1, FFPARAM_Grn1,
       FFPARAM_Blu1, FFPARAM_Alf1, FFPARAM_Red2, FFPARAM_Grn2, FFPARAM_Blu2,
       FFPARAM_Alf2 in Hcase;
     destruct Hcase
       as [-> | [-> | [-> | [-> | [-> | [-> | [-> | [-> | [-> | [->
          | [-> | [-> | ->]]]]]]]]]]]]].

Section ParameterFacts.

Context {F : Type} `{FloatOps F}.
Variable float_of_bits : Z -> F.
Variable bits_of_float : F -> Z.
Variable FF_FAIL_dword : Z.

Ltac param_tests :=
  unfold FFPARAM_Threshold, FFPARAM_Smoothness, FFPARAM_Auto, FFPARAM_TwoTone,
    FFPARAM_Chroma, FFPARAM_Red1, FFPARAM_Grn1, FFPARAM_Blu1, FFPARAM_Alf1,
    FFPARAM_Red2, FFPARAM_Grn2, FFPARAM_Blu2, FFPARAM_Alf2;
  repeat match goal with
    | |- context [?n =? ?k] =>
        destruct (Z.eqb_spec n k) as [? | ?]; [lia |]
    end.

Lemma SetParameter_unknown (n v : Z) (this : AutoThreshold F) :
  n < 0 \/ 12 < n ->
  SetParameter float_of_bits
    (Some {| ParameterNumber := n; NewParameterValue := v |}) this
  = (FF_FAIL, this).
Proof.
  intros Hn. unfold SetParameter. cbn [ParameterNumber NewParameterValue].
  param_tests. reflexivity.
Qed.

Lemma GetParameter_unknown (n : Z) (this : AutoThreshold F) :
  n < 0 \/ 12 < n ->
  GetParameter bits_of_float FF_FAIL_dword n this = (FF_FAIL_dword, this).
Proof.
  intros Hn. unfold GetParameter. param_tests. reflexivity.
Qed.

(** X11: [SetParameter] succeeds exactly for a non-null argument whose
    parameter number is one of the thirteen, 0..12; when it fails the
    object is unchanged. *)
Theorem SetParameter_result (pParam : option SetParameterStruct)
    (this : AutoThreshold F) :
  (fst (SetParameter float_of_bits pParam this) = FF_SUCCESS <->
   exists p, pParam = Some p /\ 0 <= ParameterNumber p <= 12) /\
  (fst (SetParameter float_of_bits pParam this) = FF_FAIL ->
   snd (SetParameter float_of_bits pParam this) = this).
Proof.
  destruct pParam as [[n v] |].
  - parameter_case n Hn.
    + rewrite SetParameter_unknown by exact Hn. cbn [fst snd]. split.
      * split; [discriminate |].
        intros (p & Hp & Hrange). injection Hp as <-.
        cbn [ParameterNumber] in Hrange. lia.
      * reflexivity.
    + split; [split; [intros _; eexists; split; [reflexivity | cbn; lia]
                     | reflexivity] | discriminate].
    + split; [split; [intros _; eexists; split; [reflexivity | cbn; lia]
                     | reflexivity] | discriminate].
    + split; [split; [intros _; eexists; split; [reflexivity | cbn; lia]
                     | reflexivity] | discriminate].
    + split; [split; [intros _; eexists; split; [reflexivity | cbn; lia]
                     | reflexivity] | discriminate].
    + split; [split; [intros _; eexists; split; [reflexivity | cbn; lia]
                     | reflexivity] | discriminate].
    + split; [split; [intros _; eexists; split; [reflexivity | cbn; lia]
                     | reflexivity] | discriminate].
    + split; [split; [intros _; eexists; split; [reflexivity | cbn; lia]
                     | reflexivity] | discriminate].
    + split; [split; [intros _; eexists; split; [reflexivity | cbn; lia]
                     | reflexivity] | discriminate].
    + split; [split; [intros _; eexists; split; [reflexivity | cbn; lia]
                     | reflexivity] | discriminate].
    + split; [split; [intros _; eexists; split; [reflexivity | cbn; lia]
                     | reflexivity] | discriminate].
    + split; [split; [intros _; eexists; split; [reflexivity | cbn; lia]
                     | reflexivity] | discriminate].
    + split; [split; [intros _; eexists; split; [reflexivity | cbn; lia]
                     | reflexivity] | discriminate].
    + split; [split; [intros _; eexists; split; [reflexivity | cbn; lia]
                     | reflexivity] | discriminate].
  - cbn. split; [| reflexivity].
    split; [discriminate | intros (p & Hp & _); discriminate].
Qed.

(** Case analysis on two parameter numbers, closed by evaluation. *)
Ltac by_parameter n :=
  let Hout := fresh "Hout" in parameter_case n Hout.

(** X12: setting one parameter never changes what [GetParameter] returns
    for another one. *)
Theorem SetParameter_keeps_others (p : SetParameterStruct) (n : Z)
    (this : AutoThreshold F) :
  n <> ParameterNumber p ->
  fst (GetParameter bits_of_float FF_FAIL_dword n
         (snd (SetParameter float_of_bits (Some p) this)))
  = fst (GetParameter bits_of_float FF_FAIL_dword n this).
Proof.
  destruct p as [m v]. cbn [ParameterNumber]. intros Hnm.
  by_parameter m.
  - now rewrite SetParameter_unknown.
  - by_parameter n;
      [ now rewrite !GetParameter_unknown | try reflexivity; lia .. ].
  - by_parameter n;
      [ now rewrite !GetParameter_unknown | try reflexivity; lia .. ].
  - by_parameter n;
      [ now rewrite !GetParameter_unknown | try reflexivity; lia .. ].
  - by_parameter n;
      [ now rewrite !GetParameter_unknown | try reflexivity; lia .. ].
  - by_parameter n;
      [ now rewrite !GetParameter_unknown | try reflexivity; lia .. ].
  - by_parameter n;
      [ now rewrite !GetParameter_unknown | try reflexivity; lia .. ].
  - by_parameter n;
      [ now rewrite !GetParameter_unknown | try reflexivity; lia .. ].
  - by_parameter n;
      [ now rewrite !GetParameter_unknown | try reflexivity; lia .. ].
  - by_parameter n;
      [ now rewrite !GetParameter_unknown | try reflexivity; lia .. ].
  - by_parameter n;
      [ now rewrite !GetParameter_unknown | try reflexivity; lia .. ].
  - by_parameter n;
      [ now rewrite !GetParameter_unknown | try reflexivity; lia .. ].
  - by_parameter n;
      [ now rewrite !GetParameter_unknown | try reflexivity; lia .. ].
  - by_parameter n;
      [ now rewrite !GetParameter_unknown | try reflexivity; lia .. ].
Qed.

(** X13: [SetParameter] calls on two different parameters can be made in
    either order, and of two calls on the same parameter only the second
    shows. *)
Theorem SetParameter_order (p q : SetParameterStruct)
    (this : AutoThreshold F) :
  (ParameterNumber p <> ParameterNumber q ->
   snd (SetParameter float_of_bits (Some q)
          (snd (SetParameter float_of_bits (Some p) this)))
   = snd (SetParameter float_of_bits (Some p)
            (snd (SetParameter float_of_bits (Some q) this)))) /\
  (ParameterNumber p = ParameterNumber q ->
   snd (SetParameter float_of_bits (Some q)
          (snd (SetParameter float_of_bits (Some p) this)))
   = snd (SetParameter float_of_bits (Some q) this)).
Proof.
  destruct p as [m v], q as [n w]. cbn [ParameterNumber]. split.
  - intros Hmn. by_parameter m.
    + rewrite !(SetParameter_unknown m v) by assumption. reflexivity.
    + by_parameter n;
        [ now rewrite !(SetParameter_unknown n w) | try reflexivity; lia .. ].
    + by_parameter n;
        [ now rewrite !(SetParameter_unknown n w) | try reflexivity; lia .. ].
    + by_parameter n;
        [ now rewrite !(SetParameter_unknown n w) | try reflexivity; lia .. ].
    + by_parameter n;
        [ now rewrite !(SetParameter_unknown n w) | try reflexivity; lia .. ].
    + by_parameter n;
        [ now rewrite !(SetParameter_unknown n w) | try reflexivity; lia .. ].
    + by_parameter n;
        [ now rewrite !(SetParameter_unknown n w) | try reflexivity; lia .. ].
    + by_parameter n;
        [ now rewrite !(SetParameter_unknown n w) | try reflexivity; lia .. ].
    + by_parameter n;
        [ now rewrite !(SetParameter_unknown n w) | try reflexivity; lia .. ].
    + by_parameter n;
        [ now rewrite !(SetParameter_unknown n w) | try reflexivity; lia .. ].
    + by_parameter n;
        [ now rewrite !(SetParameter_unknown n w) | try reflexivity; lia .. ].
    + by_parameter n;
        [ now rewrite !(SetParameter_unknown n w) | try reflexivity; lia .. ].
    + by_parameter n;
        [ now rewrite !(SetParameter_unknown n w) | try reflexivity; lia .. ].
    + by_parameter n;
        [ now rewrite !(SetParameter_unknown n w) | try reflexivity; lia .. ].
  - intros <-. by_parameter m; [| reflexivity ..].
    now rewrite !SetParameter_unknown.
Qed.

(** X14: when storing a float's bits gives back the bits it was read
    from, [GetParameter] returns for each of the ten float parameters the
    value last given to [SetParameter]; for the three flags it returns
    the bits of 1.0 when that value was above 0 and of 0.0 otherwise. *)
Theorem GetParameter_after_SetParameter (n v : Z) (this : AutoThreshold F) :
  (forall d : Z, bits_of_float (float_of_bits d) = d) ->
  0 <= n <= 12 ->
  fst (GetParameter bits_of_float FF_FAIL_dword n
         (snd (SetParameter float_of_bits
                 (Some {| ParameterNumber := n; NewParameterValue := v |})
                 this)))
  = if (n =? FFPARAM_Auto) || (n =? FFPARAM_TwoTone) || (n =? FFPARAM_Chroma)
    then bits_of_float (of_int (if v >? 0 then 1 else 0))
    else v.
Proof.
  intros Hbits Hn.
  by_parameter n; try lia; cbn; try apply Hbits; reflexivity.
Qed.

End ParameterFacts.

Lemma SetParameter_keeps_others_witness :
  fst (GetParameter bits_of_number 4294967295 FFPARAM_Smoothness
         (snd (SetParameter number_of_bits
                 (Some {| ParameterNumber := FFPARAM_Auto;
                          NewParameterValue := 1065353216 |})
                 initial_plugin)))
  = fst (GetParameter bits_of_number 4294967295 FFPARAM_Smoothness
           initial_plugin).
Proof.
  apply (SetParameter_keeps_others number_of_bits bits_of_number 4294967295
           {| ParameterNumber := FFPARAM_Auto;
              NewParameterValue := 1065353216 |}
           FFPARAM_Smoothness initial_plugin).
  vm_compute. congruence.
Defined.

Lemma GetParameter_after_SetParameter_witness :
  fst (GetParameter bits_of_number 4294967295 FFPARAM_Red1
         (snd (SetParameter number_of_bits
                 (Some {| ParameterNumber := FFPARAM_Red1;
                          NewParameterValue := 1056964608 |})
                 initial_plugin)))
  = if (FFPARAM_Red1 =? FFPARAM_Auto) || (FFPARAM_Red1 =? FFPARAM_TwoTone)
       || (FFPARAM_Red1 =? FFPARAM_Chroma)
    then bits_of_number (of_int (if 1056964608 >? 0 then 1 else 0))
    else 1056964608.
Proof.
  apply (GetParameter_after_SetParameter number_of_bits bits_of_number
           4294967295 FFPARAM_Red1 1056964608 initial_plugin).
  - intros d. reflexivity.
  - vm_compute. split; congruence.
Defined.

(** * The object from call to call *)

Section Calls.

Variable float_of_bits : Z -> Q.
Variable bits_of_float : Q -> Z.
Variable FF_FAIL_dword : Z.

Lemma user_threshold_kept (c : call) (this : AutoThreshold Q) :
  keeps_user_threshold c ->
  m_UserThreshold
    (after_call float_of_bits bits_of_float FF_FAIL_dword c this)
  = match c with
    | CallInitGL true => 0%Q
    | _ => m_UserThreshold this
    end.
Proof.
  intros Hc. destruct c as [extensions | pParam | dwIndex | textures].
  - destruct extensions; reflexivity.
  - destruct pParam as [[n v] |]; [| reflexivity].
    cbn [keeps_user_threshold ParameterNumber] in Hc.
    unfold FFPARAM_Threshold in Hc.
    parameter_case n Hn; try reflexivity.
    + cbn [after_call]. now rewrite SetParameter_unknown.
    + contradiction.
  - reflexivity.
  - cbn [after_call].
    pose proof (ProcessOpenGL_footprint textures this)
      as (Hafter & _).
    cbv zeta in Hafter. rewrite Hafter. reflexivity.
Qed.

(** X16: [InitGL] puts the user threshold at 0, not at the 0.5 of the
    constructor.  Until a [SetParameter] call sets the Threshold
    parameter, whatever else the host calls, [m_UserThreshold] is 0 and the
    threshold of the next frame is 0, in manual and in automatic mode. *)
Theorem threshold_zero_until_set (memory : AutoThreshold Q)
    (calls : list call) (Texture : FFGLTextureStruct)
    (rest : list (option FFGLTextureStruct)) :
  Forall keeps_user_threshold calls ->
  let this :=
    after_calls float_of_bits bits_of_float FF_FAIL_dword
      (CallInitGL true :: calls) (constructor memory) in
  m_UserThreshold this = 0%Q /\
  (m_Threshold (snd (ProcessOpenGL (Some Texture :: rest) this)) == 0)%Q.
Proof.
  intros Hcalls. cbv zeta.
  assert (Huser :
    m_UserThreshold
      (after_calls float_of_bits bits_of_float FF_FAIL_dword
         (CallInitGL true :: calls) (constructor memory)) = 0%Q).
  { unfold after_calls. cbn [fold_left].
    assert (Hstart : m_UserThreshold
              (after_call float_of_bits bits_of_float FF_FAIL_dword
                 (CallInitGL true) (constructor memory)) = 0%Q)
      by reflexivity.
    revert Hstart.
    generalize (after_call float_of_bits bits_of_float FF_FAIL_dword
                  (CallInitGL true) (constructor memory)).
    induction Hcalls as [| c calls Hc Hcalls IH]; intros this Hthis;
      [exact Hthis |].
    cbn [fold_left]. apply IH. rewrite (user_threshold_kept c this Hc).
    destruct c as [[|] | | |]; try exact Hthis. reflexivity. }
  split; [exact Huser |].
  rewrite ProcessOpenGL_sets_threshold. unfold frame_threshold.
  rewrite Huser.
  set (this := after_calls float_of_bits bits_of_float FF_FAIL_dword
                 (CallInitGL true :: calls) (constructor memory)).
  assert (Hzero : forall x : Q, (x == 0)%Q ->
            ((if fgt (if flt x (of_int 0) then of_int 0 else x) (of_int 1)
              then of_int 1
              else if flt x (of_int 0) then of_int 0 else x) == 0)%Q).
  { intros x Hx. pose proof (limit_is_clamp x) as (Hclamp & _).
    cbv zeta in Hclamp. rewrite Hclamp. unfold clamp.
    rewrite Q.max_l by (rewrite Hx; apply Qle_refl).
    rewrite Q.min_l by (rewrite Hx; discriminate). exact Hx. }
  destruct (negb (m_Auto this =? 0)).
  - apply Hzero. change (@fmul Q Q_ops) with Qmult.
    change (@of_int Q Q_ops 2) with 2%Q. ring.
  - apply Hzero. reflexivity.
Qed.

End Calls.

Lemma threshold_zero_until_set_witness :
  let this :=
    after_calls number_of_bits bits_of_number 4294967295
      (CallInitGL true
       :: [CallSetParameter (Some {| ParameterNumber := FFPARAM_Auto;
                                     NewParameterValue := 1065353216 |});
           CallProcessOpenGL [Some texture9]])
      (constructor initial_plugin) in
  m_UserThreshold this = 0%Q /\
  (m_Threshold (snd (ProcessOpenGL [Some texture9] this)) == 0)%Q.
Proof.
  apply (threshold_zero_until_set number_of_bits bits_of_number 4294967295
           initial_plugin).
  repeat constructor. vm_compute. congruence.
Defined.

(** * The object from call to call, for floats with NaN *)

(** A loop whose body commutes with [f] commutes with [f]. *)
Lemma for_loop_map {S T : Type} (f : S -> T)
    (body1 : Z -> S -> result S) (body2 : Z -> T -> result T) :
  (forall i s, body2 i (f s) = map_result f (body1 i s)) ->
  forall (fuel : nat) (step i bound : Z) (s : S),
    for_loop fuel step i bound body2 (f s)
    = map_result f (for_loop fuel step i bound body1 s).
Proof.
  intros Hbody fuel step. induction fuel as [| fuel IH]; intros i bound s.
  - cbn [for_loop]. destruct (i <? bound); reflexivity.
  - cbn [for_loop]. destruct (i <? bound); [| reflexivity].
    rewrite Hbody. destruct (body1 i s) as [s' | |]; cbn [bind map_result];
      [apply IH | reflexivity | reflexivity].
Qed.

(** The sums of [gradient] stay finite: over [IEEE.float] they are those
    over the rationals. *)
Lemma gradient_pixel_finite (buffer : list byte) (Width lp : Z)
    (acc : Q * Q) :
  gradient_pixel buffer Width lp (finite_sums acc)
  = map_result finite_sums (gradient_pixel buffer Width lp acc).
Proof.
  destruct acc as [a b]. unfold gradient_pixel, finite_sums. cbn [fst snd].
  repeat match goal with
    | |- context [peek ?buf ?off] =>
        destruct (peek buf off); cbn [bind map_result]; try reflexivity
    end.
Qed.

Lemma gradient_line_finite (buffer : list byte) (Width i : Z)
    (acc : Q * Q) :
  gradient_line buffer Width i (finite_sums acc)
  = map_result finite_sums (gradient_line buffer Width i acc).
Proof.
  unfold gradient_line. apply for_loop_map.
  intros j s. apply gradient_pixel_finite.
Qed.

(** What [gradient] returns on a well-formed frame, over [IEEE.float]. *)
Lemma gradient_estimate_IEEE (buffer : list byte) (Width Height : Z)
    (this : AutoThreshold IEEE.float) :
  frame buffer Width Height ->
  exists t : Z,
    0 <= t <= 765 /\
    fst (gradient buffer Width Height this)
    = Ok (IEEE.Finite (inject_Z t / inject_Z 768)).
Proof.
  intros Hf.
  exists (Z.quot (total_exy_fxy buffer Width Height)
                 (total_exy buffer Width Height + 1)).
  pose proof (totals_bound buffer Width (sample_points Width Height))
    as (Hs & Hlo & Hhi).
  fold (total_exy buffer Width Height) in Hs, Hhi.
  fold (total_exy_fxy buffer Width Height) in Hlo, Hhi.
  split.
  { rewrite Z.quot_div_nonneg by lia. split.
    - apply Z.div_pos; lia.
    - apply Z.div_le_upper_bound; lia. }
  unfold gradient. cbn [fst].
  change (@of_int IEEE.float IEEE_ops 0, @of_int IEEE.float IEEE_ops 0)
    with (finite_sums (inject_Z 0, inject_Z 0)).
  rewrite (for_loop_map finite_sums (gradient_line buffer Width)
             (gradient_line buffer Width)
             (gradient_line_finite buffer Width)).
  assert (HH : Int.min_int + 4 <= Height <= Int.max_int).
  { destruct Hf as (HW & HH & Hmax & _). int_range. nia. }
  rewrite samples_loop by exact HH.
  rewrite (gradient_rows buffer Width Height Hf)
    by (intros i Hi; apply In_samples in Hi; lia).
  cbn [map_result bind finite_sums fst snd]. rewrite !Z.add_0_l.
  fold (sample_points Width Height).
  fold (total_exy buffer Width Height).
  fold (total_exy_fxy buffer Width Height).
  set (e := total_exy buffer Width Height) in *.
  set (ef := total_exy_fxy buffer Width Height) in *.
  change (@fadd IEEE.float IEEE_ops (IEEE.Finite (inject_Z e))
            (@of_int IEEE.float IEEE_ops 1))
    with (IEEE.Finite (inject_Z e + inject_Z 1)).
  change (@fdiv IEEE.float IEEE_ops) with IEEE.div.
  change (@to_int IEEE.float IEEE_ops) with IEEE.to_int.
  change (@of_int IEEE.float IEEE_ops) with
    (fun n : Z => IEEE.Finite (inject_Z n)).
  cbv beta. rewrite Qplus_inject_Z.
  assert (Hne : Qeq_bool (inject_Z (e + 1)) 0 = false).
  { destruct (Qeq_bool (inject_Z (e + 1)) 0) eqn:Hz; [| reflexivity].
    apply Qeq_bool_iff in Hz. unfold Qeq in Hz. cbn in Hz. lia. }
  unfold IEEE.div at 2. rewrite Hne. cbn [IEEE.to_int].
  pose proof (to_int_div ef (e + 1) ltac:(lia)) as Hdiv.
  change (@to_int Q Q_ops) with (fun x : Q => Z.quot (Qnum x) (Zpos (Qden x)))
    in Hdiv.
  change (@fdiv Q Q_ops) with Qdiv in Hdiv. cbv beta in Hdiv.
  rewrite Hdiv. reflexivity.
Qed.

Section HostCalls.

Variable float_of_bits : Z -> IEEE.float.
Variable bits_of_float : IEEE.float -> Z.
Variable FF_FAIL_dword : Z.

Lemma plugin_ok_flag (v : Z) :
  (if v >? 0 then 1 else 0) = 0 \/ (if v >? 0 then 1 else 0) = 1.
Proof. destruct (v >? 0); auto. Qed.

Lemma plugin_ok_SetParameter (pParam : option SetParameterStruct)
    (this : AutoThreshold IEEE.float) :
  host_call_ok float_of_bits (CallSetParameter pParam) ->
  plugin_ok this -> plugin_ok (snd (SetParameter float_of_bits pParam this)).
Proof.
  intros (_ & Hbits) (Ht & Ha & Hu & Hauto & Htwo & Hchroma).
  destruct pParam as [[n v] |]; [| unfold plugin_ok; cbn; tauto].
  cbn [ParameterNumber NewParameterValue] in Hbits.
  pose proof (plugin_ok_flag v) as Hflag.
  parameter_case n Hn;
    [ rewrite SetParameter_unknown by exact Hn; unfold plugin_ok; cbn; tauto
    | unfold plugin_ok; cbn; repeat split; try assumption; now apply Hbits
    | unfold plugin_ok; cbn; tauto .. ].
Qed.

(** With a finite estimate and a finite user entry the blended value is
    finite, and the threshold of the frame is in 0..1. *)
Lemma frame_threshold_in_unit (this : AutoThreshold IEEE.float) :
  IEEE.finite (m_AutoThreshold this) -> IEEE.finite (m_UserThreshold this) ->
  IEEE.in_unit (frame_threshold this).
Proof.
  intros Ha Hu. unfold frame_threshold.
  destruct (m_AutoThreshold this) as [a | | |]; try contradiction.
  destruct (m_UserThreshold this) as [u | | |]; try contradiction.
  destruct (negb (m_Auto this =? 0)).
  - apply (@limit_value IEEE.float IEEE_ops (fun x => x)
             (fun x y => eq_refl) (fun x y => eq_refl) eq_refl eq_refl
             (fmul (fmul (IEEE.Finite a) (IEEE.Finite u)) (of_int 2))).
    discriminate.
  - apply (@limit_value IEEE.float IEEE_ops (fun x => x)
             (fun x y => eq_refl) (fun x y => eq_refl) eq_refl eq_refl
             (IEEE.Finite u)).
    discriminate.
Qed.

Lemma in_unit_finite (x : IEEE.float) : IEEE.in_unit x -> IEEE.finite x.
Proof. destruct x; cbn; auto. Qed.

Lemma plugin_ok_ProcessOpenGL
    (inputTextures : list (option FFGLTextureStruct))
    (this : AutoThreshold IEEE.float) :
  call_ok (CallProcessOpenGL inputTextures) ->
  plugin_ok this -> plugin_ok (snd (ProcessOpenGL inputTextures this)).
Proof.
  intros Hok Hthis.
  destruct inputTextures as [| [tex |] rest]; try exact Hthis.
  cbn [call_ok] in Hok. unfold texture_ok in Hok.
  destruct Hthis as (Ht & Ha & Hu & Hauto & Htwo & Hchroma).
  pose proof (frame_threshold_in_unit this (in_unit_finite _ Ha) Hu) as Hnew.
  destruct (Z.eq_dec (m_Auto this) 0) as [Hman | Hman].
  - rewrite ProcessOpenGL_manual by exact Hman.
    unfold plugin_ok. cbn. tauto.
  - destruct (gradient_estimate_IEEE _ _ _ this Hok) as (t & Ht765 & Hg).
    rewrite (ProcessOpenGL_auto tex rest this _ Hman Hg).
    pose proof (estimate_in_unit t Ht765).
    unfold plugin_ok. cbn. tauto.
Qed.

Lemma plugin_ok_after_call (c : call) (this : AutoThreshold IEEE.float) :
  host_call_ok float_of_bits c -> plugin_ok this ->
  plugin_ok (after_call float_of_bits bits_of_float FF_FAIL_dword c this).
Proof.
  intros Hc Hthis. destruct c as [extensions | pParam | dwIndex | textures].
  - destruct extensions; [| exact Hthis].
    destruct Hthis as (Ht & Ha & Hu & Hflags).
    unfold plugin_ok. cbn. repeat split; try discriminate; apply Hflags.
  - now apply plugin_ok_SetParameter.
  - exact Hthis.
  - apply plugin_ok_ProcessOpenGL; [apply Hc | exact Hthis].
Qed.

(** X15: from its construction and a successful [InitGL] on, whatever
    calls the host makes, with well-formed textures and with the bits of a
    finite number whenever it sets the Threshold parameter, the object has
    [m_Threshold] and [m_AutoThreshold] in 0..1, a finite user entry and
    its three mode flags equal to 0 or 1.  The other float parameters may
    be given any bits, those of a NaN included. *)
Theorem plugin_ok_always (memory : AutoThreshold IEEE.float)
    (calls : list call) :
  Forall (host_call_ok float_of_bits) calls ->
  plugin_ok (after_calls float_of_bits bits_of_float FF_FAIL_dword
               (CallInitGL true :: calls) (IEEE_constructor memory)).
Proof.
  intros Hcalls. unfold after_calls. cbn [fold_left].
  assert (Hstart : plugin_ok
            (after_call float_of_bits bits_of_float FF_FAIL_dword
               (CallInitGL true) (IEEE_constructor memory))).
  { unfold plugin_ok. cbn. repeat split; try discriminate; auto. }
  revert Hstart.
  generalize (after_call float_of_bits bits_of_float FF_FAIL_dword
                (CallInitGL true) (IEEE_constructor memory)).
  induction Hcalls as [| c calls Hc Hcalls IH]; intros this Hthis;
    [exact Hthis |].
  cbn [fold_left]. apply IH. now apply plugin_ok_after_call.
Qed.

End HostCalls.

Lemma plugin_ok_always_witness :
  plugin_ok
    (after_calls IEEE.of_bits no_bits 4294967295
       (CallInitGL true
        :: calls_auto
        ++ [CallSetParameter (Some {| ParameterNumber := FFPARAM_Red1;
                                      NewParameterValue := NaN_bits |});
            CallProcessOpenGL [Some texture9];
            CallGetParameter FFPARAM_Threshold;
            CallProcessOpenGL []])
       (IEEE_constructor IEEE_memory)).
Proof.
  apply (plugin_ok_always IEEE.of_bits no_bits 4294967295 IEEE_memory).
  unfold calls_auto. cbn [app].
  repeat constructor;
    try (unfold texture_ok, texture9, gray9, pixels, Width, Height;
         concrete_frame);
    try (cbn; intros; exact I);
    try (cbn [ParameterNumber]; unfold FFPARAM_Red1, FFPARAM_Auto,
           FFPARAM_Threshold; discriminate).
Defined.

(** * The fragment shader *)

Lemma Qlt_bool_cases (p q : Q) :
  (Qlt_bool p q = true /\ p < q)%Q \/ (Qlt_bool p q = false /\ q <= p)%Q.
Proof.
  destruct (Qlt_bool p q) eqn:Hpq.
  - left. split; [reflexivity | now apply Qlt_bool_iff].
  - right. split; [reflexivity | now apply Qlt_bool_false].
Qed.

Lemma maxChannel_spec (v : Shader.vec3) :
  (Shader.x v <= Shader.maxChannel v)%Q /\
  (Shader.y v <= Shader.maxChannel v)%Q /\
  (Shader.z v <= Shader.maxChannel v)%Q /\
  (Shader.maxChannel v = Shader.x v \/ Shader.maxChannel v = Shader.y v \/
   Shader.maxChannel v = Shader.z v).
Proof.
  unfold Shader.maxChannel. cbv zeta.
  destruct (Qlt_bool_cases (Shader.y v) (Shader.x v)) as [[-> H1] | [-> H1]];
    match goal with |- context [Qlt_bool ?p ?q] =>
      destruct (Qlt_bool_cases p q) as [[-> H2] | [-> H2]] end;
    repeat split; auto; lra.
Qed.

Lemma minChannel_spec (v : Shader.vec3) :
  (Shader.minChannel v <= Shader.x v)%Q /\
  (Shader.minChannel v <= Shader.y v)%Q /\
  (Shader.minChannel v <= Shader.z v)%Q /\
  (Shader.minChannel v = Shader.x v \/ Shader.minChannel v = Shader.y v \/
   Shader.minChannel v = Shader.z v).
Proof.
  unfold Shader.minChannel. cbv zeta.
  destruct (Qlt_bool_cases (Shader.x v) (Shader.y v)) as [[-> H1] | [-> H1]];
    match goal with |- context [Qlt_bool ?p ?q] =>
      destruct (Qlt_bool_cases p q) as [[-> H2] | [-> H2]] end;
    repeat split; auto; lra.
Qed.

Lemma clamp_unit (q : Q) :
  (0 <= clamp q 0 1 <= 1)%Q /\
  (q <= 0 -> clamp q 0 1 == 0)%Q /\
  (1 <= q -> clamp q 0 1 == 1)%Q.
Proof.
  unfold clamp.
  destruct (Q.max_spec q 0) as [[H1 ->] | [H1 ->]];
    match goal with |- context [Qmin ?p 1] =>
      destruct (Q.min_spec p 1) as [[H2 ->] | [H2 ->]] end;
    repeat split; intros; try lra.
Qed.

(** [smoothstep] between two edges. *)
Lemma smoothstep_spec (edge0 edge1 v : Q) :
  (edge0 < edge1)%Q ->
  (0 <= Shader.smoothstep edge0 edge1 v <= 1)%Q /\
  (v <= edge0 -> Shader.smoothstep edge0 edge1 v == 0)%Q /\
  (edge1 <= v -> Shader.smoothstep edge0 edge1 v == 1)%Q.
Proof.
  intros Hedges. unfold Shader.smoothstep. cbv zeta.
  set (q := ((v - edge0) / (edge1 - edge0))%Q).
  destruct (clamp_unit q) as (Ht & Hlow & Hhigh).
  assert (Hq : (q * (edge1 - edge0) == v - edge0)%Q).
  { unfold q. field. lra. }
  set (t := clamp q 0 1) in *.
  assert (Hrange : (0 <= t * t * (3 - 2 * t) <= 1)%Q).
  { assert (Hsq : (0 <= t * t)%Q) by nra.
    assert (Hsq' : (0 <= (1 - t) * (1 - t))%Q) by nra.
    assert (Hup : (t * t * (3 - 2 * t)
                   == 1 - (1 - t) * (1 - t) * (1 + 2 * t))%Q) by ring.
    split.
    - apply Qmult_le_0_compat; [exact Hsq | lra].
    - rewrite Hup.
      assert (0 <= (1 - t) * (1 - t) * (1 + 2 * t))%Q
        by (apply Qmult_le_0_compat; [exact Hsq' | lra]).
      lra. }
  split; [exact Hrange |]. split.
  - intros Hv. assert (Hq0 : (q <= 0)%Q) by nra.
    rewrite (Hlow Hq0). ring.
  - intros Hv. assert (Hq1 : (1 <= q)%Q) by nra.
    rewrite (Hhigh Hq1). ring.
Qed.

(** The channels that [hsvToRgb] returns lie between [v (1 - s)] and
    [v]. *)
Lemma hsvToRgb_range (hsv : Shader.vec3) :
  (0 <= Shader.y hsv <= 1)%Q -> (0 <= Shader.z hsv)%Q ->
  let lo := (Shader.z hsv * (1 - Shader.y hsv))%Q in
  let c := Shader.hsvToRgb hsv in
  (lo <= Shader.x c <= Shader.z hsv)%Q /\
  (lo <= Shader.y c <= Shader.z hsv)%Q /\
  (lo <= Shader.z c <= Shader.z hsv)%Q.
Proof.
  destruct hsv as [h s v]. cbn [Shader.x Shader.y Shader.z].
  intros Hs Hv. cbv zeta. unfold Shader.hsvToRgb.
  cbn [Shader.x Shader.y Shader.z].
  assert (Hlo : (v * (1 - s) <= v)%Q) by nra.
  destruct (negb (Qeq_bool s 0)); [| cbn; repeat split; lra].
  cbv zeta.
  pose proof (Qfloor_le (h * 6)) as Hfl.
  pose proof (Qlt_floor (h * 6)) as Hfu.
  rewrite inject_Z_plus in Hfu. change (inject_Z 1) with 1%Q in Hfu.
  set (fr := (h * 6 - inject_Z (Qfloor (h * 6)))%Q).
  assert (Hfr : (0 <= fr <= 1)%Q) by (unfold fr; lra).
  assert (Hsf : (0 <= s * fr <= s)%Q) by nra.
  assert (Hsf' : (0 <= s * (1 - fr) <= s)%Q) by nra.
  assert (H2 : (v * (1 - s) <= v * (1 - s * fr) <= v)%Q) by nra.
  assert (H3 : (v * (1 - s) <= v * (1 - s * (1 - fr)) <= v)%Q) by nra.
  generalize (to_int (inject_Z (Qfloor (h * 6)))). intros k.
  destruct k as [| [[[p | p |] | [p | p |] |] | [[p | p |] | [p | p |] |] |] | p];
    cbn [Shader.x Shader.y Shader.z]; repeat split; lra.
Qed.

(** Saturation and value as [rgbToHsv] computes them. *)
Lemma rgbToHsv_sv (rgb : Shader.vec3) :
  let delta := (Shader.maxChannel rgb - Shader.minChannel rgb)%Q in
  Shader.y (Shader.rgbToHsv rgb)
  = (if negb (Qeq_bool delta 0)
     then (delta / Shader.maxChannel rgb)%Q else 0%Q) /\
  Shader.z (Shader.rgbToHsv rgb) = Shader.maxChannel rgb.
Proof.
  cbv zeta. unfold Shader.rgbToHsv. cbv zeta.
  repeat match goal with
    | |- context [if ?c then _ else _] => destruct c
    end; split; reflexivity.
Qed.

Lemma rgbToHsv_saturation (rgb : Shader.vec3) :
  (0 <= Shader.x rgb)%Q -> (0 <= Shader.y rgb)%Q -> (0 <= Shader.z rgb)%Q ->
  (0 <= Shader.y (Shader.rgbToHsv rgb) <= 1)%Q.
Proof.
  intros Hx Hy Hz.
  destruct (rgbToHsv_sv rgb) as (-> & _).
  destruct (maxChannel_spec rgb) as (HMx & HMy & HMz & HM).
  destruct (minChannel_spec rgb) as (Hmx & Hmy & Hmz & Hm).
  set (M := Shader.maxChannel rgb) in *.
  set (m := Shader.minChannel rgb) in *.
  assert (Hm0 : (0 <= m)%Q) by (destruct Hm as [-> | [-> | ->]]; assumption).
  destruct (Qeq_bool (M - m) 0) eqn:Hdelta; cbn [negb]; [lra |].
  apply Qeq_bool_neq in Hdelta.
  assert (HMpos : (0 < M)%Q) by lra.
  split.
  - apply Qle_shift_div_l; [exact HMpos | lra].
  - apply Qle_shift_div_r; [exact HMpos | lra].
Qed.

Lemma Qlt_bool_half (f : Q) :
  ((f == 0)%Q -> Qlt_bool (5 # 10) f = false) /\
  ((f == 1)%Q -> Qlt_bool (5 # 10) f = true).
Proof.
  split; intros Hf.
  - apply Qlt_bool_false. lra.
  - apply Qlt_bool_iff. lra.
Qed.

(** X17: with a positive smoothness, colour uniforms in 0..1 and a texel
    in 0..1, every channel of the colour that the shader writes lies in
    0..1, in each of its three modes. *)
Theorem main_in_unit (u : Shader.uniforms) (c0 : Shader.vec4) :
  (0 < Shader.Smoothness u)%Q ->
  unit_colours u -> unit_vec4 c0 ->
  unit_vec4 (Shader.main u c0).
Proof.
  intros Hsmooth (HR1 & HG1 & HB1 & HR2 & HG2 & HB2 & HA1 & HA2)
         (Hr & Hg & Hb & Ha).
  unfold unit_Q in *. unfold Shader.main. cbv zeta.
  set (L := Shader.dot c0 Shader.grayScaleWeights).
  destruct (smoothstep_spec (Shader.Threshold u)
              (Shader.Threshold u + Shader.Smoothness u) L ltac:(lra))
    as (Hf & _ & _).
  set (f := Shader.smoothstep (Shader.Threshold u)
              (Shader.Threshold u + Shader.Smoothness u) L) in *.
  assert (Half : (0 <= (if Qlt_bool (5 # 10) f
                        then Shader.Alf2 u else Shader.Alf1 u) <= 1)%Q)
    by (destruct (Qlt_bool (5 # 10) f); assumption).
  destruct ((Shader.TwoTone u >? 0) && (Shader.Chroma u <=? 0)).
  - unfold unit_vec4, unit_Q.
    cbn [Shader.r Shader.g Shader.b Shader.a]. repeat split; nra.
  - destruct ((Shader.Chroma u >? 0) && (Shader.TwoTone u <=? 0)).
    + pose proof (rgbToHsv_saturation
                    {| Shader.x := Shader.r c0; Shader.y := Shader.g c0;
                       Shader.z := Shader.b c0 |}
                    ltac:(apply Hr) ltac:(apply Hg) ltac:(apply Hb)) as Hs.
      set (hsv := Shader.rgbToHsv
                    {| Shader.x := Shader.r c0; Shader.y := Shader.g c0;
                       Shader.z := Shader.b c0 |}) in *.
      pose proof (hsvToRgb_range
                    {| Shader.x := Shader.x hsv; Shader.y := Shader.y hsv;
                       Shader.z := f |} Hs ltac:(apply Hf)) as Hc.
      cbv zeta in Hc. cbn [Shader.x Shader.y Shader.z] in Hc.
      destruct Hc as (Hcx & Hcy & Hcz).
      assert (Hlo : (0 <= f * (1 - Shader.y hsv))%Q) by nra.
      unfold unit_vec4, unit_Q.
      cbn [Shader.r Shader.g Shader.b Shader.a].
      repeat split; try apply Half; lra.
    + unfold unit_vec4, unit_Q.
      cbn [Shader.r Shader.g Shader.b Shader.a].
      repeat split; try apply Half; lra.
Qed.

Lemma main_in_unit_witness :
  (0 < Shader.Smoothness uniforms1)%Q /\ unit_vec4 (Shader.main uniforms1 navy).
Proof.
  assert (Hsmooth : (0 < Shader.Smoothness uniforms1)%Q) by reflexivity.
  split; [exact Hsmooth |].
  apply (main_in_unit uniforms1 navy Hsmooth);
    unfold unit_colours, unit_vec4, unit_Q; cbn; repeat split; discriminate.
Defined.

Lemma Qfloor_unique (q : Q) (k : Z) :
  (inject_Z k <= q < inject_Z k + 1)%Q -> Qfloor q = k.
Proof.
  intros [Hlo Hhi].
  pose proof (Qfloor_le q) as Hfl. pose proof (Qlt_floor q) as Hfu.
  rewrite inject_Z_plus in Hfu. change (inject_Z 1) with 1%Q in Hfu.
  assert (H1 : (inject_Z (Qfloor q) < inject_Z (k + 1))%Q)
    by (rewrite inject_Z_plus; change (inject_Z 1) with 1%Q; lra).
  assert (H2 : (inject_Z k < inject_Z (Qfloor q + 1))%Q)
    by (rewrite inject_Z_plus; change (inject_Z 1) with 1%Q; lra).
  rewrite <- Zlt_Qlt in H1, H2. lia.
Qed.

Lemma to_int_inject_Z (k : Z) : to_int (inject_Z k) = k.
Proof. cbn. apply Z.quot_1_r. Qed.

(** [hsvToRgb] when the hue lies in sector [k]. *)
Lemma hsvToRgb_sector (h s v : Q) (k : Z) :
  ~ (s == 0)%Q ->
  (inject_Z k <= h * 6 < inject_Z k + 1)%Q ->
  Shader.hsvToRgb {| Shader.x := h; Shader.y := s; Shader.z := v |}
  = let fr := (h * 6 - inject_Z k)%Q in
    let var_1 := (v * (1 - s))%Q in
    let var_2 := (v * (1 - s * fr))%Q in
    let var_3 := (v * (1 - s * (1 - fr)))%Q in
    match k with
    | 0 => {| Shader.x := v; Shader.y := var_3; Shader.z := var_1 |}
    | 1 => {| Shader.x := var_2; Shader.y := v; Shader.z := var_1 |}
    | 2 => {| Shader.x := var_1; Shader.y := v; Shader.z := var_3 |}
    | 3 => {| Shader.x := var_1; Shader.y := var_2; Shader.z := v |}
    | 4 => {| Shader.x := var_3; Shader.y := var_1; Shader.z := v |}
    | _ => {| Shader.x := v; Shader.y := var_1; Shader.z := var_2 |}
    end.
Proof.
  intros Hs Hk. unfold Shader.hsvToRgb. cbn [Shader.x Shader.y Shader.z].
  destruct (Qeq_bool s 0) eqn:Hs0.
  - apply Qeq_bool_iff in Hs0. contradiction.
  - cbn [negb]. cbv zeta. rewrite to_int_inject_Z.
    rewrite (Qfloor_unique (h * 6) k Hk). reflexivity.
Qed.

Ltac sector_bounds := unfold inject_Z; split; nra.

Ltac hsv_sector k Hs h0 :=
  rewrite (hsvToRgb_sector _ _ _ k Hs) by sector_bounds;
  cbv zeta; unfold same_vec3; cbn [Shader.x Shader.y Shader.z];
  unfold h0, inject_Z; repeat split.

(** The round trip through HSV, by the channel that is largest and the
    sector of the hue. *)
Lemma hsvToRgb_rgbToHsv (rgb : Shader.vec3) :
  (0 <= Shader.x rgb)%Q -> (0 <= Shader.y rgb)%Q -> (0 <= Shader.z rgb)%Q ->
  same_vec3 (Shader.hsvToRgb (Shader.rgbToHsv rgb)) rgb.
Proof.
  intros Hr Hg Hb.
  destruct (maxChannel_spec rgb) as (HMx & HMy & HMz & HM).
  destruct (minChannel_spec rgb) as (Hmx & Hmy & Hmz & Hm).
  unfold Shader.rgbToHsv. cbv zeta.
  set (M := Shader.maxChannel rgb) in *.
  set (m := Shader.minChannel rgb) in *.
  clearbody M m.
  destruct rgb as [r g b]. cbn [Shader.x Shader.y Shader.z] in *.
  assert (HM' : (M == r \/ M == g \/ M == b)%Q)
    by (destruct HM as [-> | [-> | ->]]; auto using Qeq_refl).
  assert (Hm' : (m == r \/ m == g \/ m == b)%Q)
    by (destruct Hm as [-> | [-> | ->]]; auto using Qeq_refl).
  clear HM Hm.
  assert (Hm0 : (0 <= m)%Q) by (destruct Hm' as [E | [E | E]]; lra).
  destruct (Qeq_bool (M - m) 0) eqn:Hdelta; cbn [negb].
  - apply Qeq_bool_iff in Hdelta.
    unfold Shader.hsvToRgb. cbn. unfold same_vec3. cbn. repeat split; lra.
  - apply Qeq_bool_neq in Hdelta.
    assert (Hd : (0 < M - m)%Q) by lra.
    assert (HMpos : (0 < M)%Q) by lra.
    assert (Hs : ~ ((M - m) / M == 0)%Q).
    { intros Hs0. apply Hdelta.
      assert (Hdm : (M - m == (M - m) / M * M)%Q) by (field; lra).
      rewrite Hdm, Hs0. ring. }
    destruct (Qeq_bool r M) eqn:HrM; [| destruct (Qeq_bool g M) eqn:HgM;
      [| destruct (Qeq_bool b M) eqn:HbM]].
    + (* red is the largest channel *)
      apply Qeq_bool_iff in HrM. cbn [Shader.x Shader.y Shader.z].
      set (h0 := (((M - b) / 6 + (M - m) / 2) / (M - m)
                  - ((M - g) / 6 + (M - m) / 2) / (M - m))%Q).
      assert (Hh0 : (h0 * 6 * (M - m) == g - b)%Q) by (unfold h0; field; lra).
      destruct (Qlt_bool_cases h0 0) as [[-> Hneg] | [-> Hpos]];
        cbn [Shader.x Shader.y Shader.z].
      * destruct (Qlt_bool_cases 1 (h0 + 1)) as [[-> H1] | [-> H1]]; [lra |].
        assert (Hmg : (m == g)%Q) by (destruct Hm' as [E | [E | E]]; nra).
        hsv_sector 5 Hs h0; try lra; rewrite Hmg, <- HrM; field; lra.
      * destruct (Qlt_bool_cases 1 h0) as [[-> H1] | [-> H1]]; [nra |].
        destruct (Qlt_le_dec (h0 * 6) 1) as [Hlt | Hge].
        -- assert (Hmb : (m == b)%Q) by (destruct Hm' as [E | [E | E]]; nra).
           hsv_sector 0 Hs h0; try lra; rewrite Hmb, <- HrM; field; lra.
        -- assert (Hmb : (m == b)%Q) by nra.
           assert (HMg : (M == g)%Q) by nra.
           hsv_sector 1 Hs h0; try lra.
           ++ rewrite Hmb, <- HrM. 
              assert (Hgr : (g == r)%Q) by lra. rewrite Hgr. field; lra.
           ++ rewrite Hmb, <- HrM. field; lra.
    + (* green is the largest channel *)
      apply Qeq_bool_iff in HgM. apply Qeq_bool_neq in HrM.
      cbn [Shader.x Shader.y Shader.z].
      set (h0 := (1 / 3 + ((M - r) / 6 + (M - m) / 2) / (M - m)
                  - ((M - b) / 6 + (M - m) / 2) / (M - m))%Q).
      assert (Hh0 : (h0 * 6 * (M - m) == 2 * (M - m) + (b - r))%Q)
        by (unfold h0; field; lra).
      destruct (Qlt_bool_cases h0 0) as [[-> Hneg] | [-> Hpos]]; [nra |].
      cbn [Shader.x Shader.y Shader.z].
      destruct (Qlt_bool_cases 1 h0) as [[-> H1] | [-> H1]]; [nra |].
      destruct (Qlt_le_dec (h0 * 6) 2) as [Hlt2 | Hge2];
        [| destruct (Qlt_le_dec (h0 * 6) 3) as [Hlt3 | Hge3]].
      * assert (Hmb : (m == b)%Q) by (destruct Hm' as [E | [E | E]]; nra).
        hsv_sector 1 Hs h0; try lra; rewrite Hmb, <- HgM; field; lra.
      * assert (Hmr : (m == r)%Q) by (destruct Hm' as [E | [E | E]]; nra).
        hsv_sector 2 Hs h0; try lra; rewrite Hmr, <- HgM; field; lra.
      * assert (Hmr : (m == r)%Q) by nra.
        assert (HMb : (M == b)%Q) by nra.
        assert (Hbg : (b == g)%Q) by lra.
        hsv_sector 3 Hs h0; try lra; rewrite Hmr, <- HgM, ?Hbg; field; lra.
    + (* blue is the largest channel *)
      apply Qeq_bool_iff in HbM. apply Qeq_bool_neq in HrM.
      apply Qeq_bool_neq in HgM. cbn [Shader.x Shader.y Shader.z].
      set (h0 := (2 / 3 + ((M - g) / 6 + (M - m) / 2) / (M - m)
                  - ((M - r) / 6 + (M - m) / 2) / (M - m))%Q).
      assert (Hh0 : (h0 * 6 * (M - m) == 4 * (M - m) + (r - g))%Q)
        by (unfold h0; field; lra).
      destruct (Qlt_bool_cases h0 0) as [[-> Hneg] | [-> Hpos]]; [nra |].
      cbn [Shader.x Shader.y Shader.z].
      destruct (Qlt_bool_cases 1 h0) as [[-> H1] | [-> H1]]; [nra |].
      destruct (Qlt_le_dec (h0 * 6) 4) as [Hlt4 | Hge4].
      * assert (Hmr : (m == r)%Q) by (destruct Hm' as [E | [E | E]]; nra).
        hsv_sector 3 Hs h0; try lra; rewrite Hmr, <- HbM; field; lra.
      * assert (Hmg : (m == g)%Q) by (destruct Hm' as [E | [E | E]]; nra).
        assert (Hlt5 : (h0 * 6 < 5)%Q) by nra.
        hsv_sector 4 Hs h0; try lra; rewrite Hmg, <- HbM; field; lra.
    + (* one of the channels is the largest *)
      apply Qeq_bool_neq in HrM. apply Qeq_bool_neq in HgM.
      apply Qeq_bool_neq in HbM.
      exfalso. destruct HM' as [E | [E | E]]; lra.
Qed.

(** X18: [hsvToRgb] undoes [rgbToHsv]: a colour with channels that are
    not negative is given back channel by channel, whichever channel is
    the largest and in whichever of the six hue sectors it falls. *)
Theorem hsv_round_trip (rgb : Shader.vec3) :
  (0 <= Shader.x rgb)%Q -> (0 <= Shader.y rgb)%Q -> (0 <= Shader.z rgb)%Q ->
  same_vec3 (Shader.hsvToRgb (Shader.rgbToHsv rgb)) rgb.
Proof.
  exact (hsvToRgb_rgbToHsv rgb).
Qed.

Lemma hsv_round_trip_witness :
  same_vec3 (Shader.hsvToRgb (Shader.rgbToHsv (rgb_of navy))) (rgb_of navy).
Proof.
  apply (hsv_round_trip (rgb_of navy)); cbn; discriminate.
Defined.

(** [hsvToRgb] is linear in the value. *)
Lemma hsvToRgb_scale (h s v : Q) :
  let c := Shader.hsvToRgb {| Shader.x := h; Shader.y := s; Shader.z := v |} in
  let c1 := Shader.hsvToRgb {| Shader.x := h; Shader.y := s; Shader.z := 1 |} in
  (Shader.x c == v * Shader.x c1 /\ Shader.y c == v * Shader.y c1 /\
   Shader.z c == v * Shader.z c1)%Q.
Proof.
  cbv zeta. unfold Shader.hsvToRgb. cbn [Shader.x Shader.y Shader.z].
  destruct (negb (Qeq_bool s 0));
    [| cbn [Shader.x Shader.y Shader.z]; repeat split; ring].
  cbv zeta.
  generalize (to_int (inject_Z (Qfloor (h * 6)))). intros k.
  destruct k as [| [[[p | p |] | [p | p |] |] | [[p | p |] | [p | p |] |] |] | p];
    cbn [Shader.x Shader.y Shader.z]; repeat split; ring.
Qed.

Lemma main_level (u : Shader.uniforms) (c0 : Shader.vec4) :
  Shader.main u c0
  = let f := level u c0 in
    let alf := if Qlt_bool (5 # 10) f then Shader.Alf2 u else Shader.Alf1 u in
    if two_tone u then
      {| Shader.r := f * Shader.Red1 u + (1 - f) * Shader.Red2 u;
         Shader.g := f * Shader.Grn1 u + (1 - f) * Shader.Grn2 u;
         Shader.b := f * Shader.Blu1 u + (1 - f) * Shader.Blu2 u;
         Shader.a := f * Shader.Alf1 u + (1 - f) * Shader.Alf2 u |}
    else if chroma u then
      let hsv := Shader.rgbToHsv (rgb_of c0) in
      let c := Shader.hsvToRgb {| Shader.x := Shader.x hsv;
                                  Shader.y := Shader.y hsv; Shader.z := f |} in
      {| Shader.r := Shader.x c; Shader.g := Shader.y c;
         Shader.b := Shader.z c; Shader.a := alf |}
    else {| Shader.r := f; Shader.g := f; Shader.b := f; Shader.a := alf |}.
Proof.
  reflexivity.
Qed.

(** X19: a texel whose luminance is at most the threshold comes out as
    colour 2, alpha included, in two-tone mode and as black with alpha 1
    in the chroma and the black and white mode. *)
Theorem main_dark (u : Shader.uniforms) (c0 : Shader.vec4) :
  (0 < Shader.Smoothness u)%Q ->
  (luminance c0 <= Shader.Threshold u)%Q ->
  same_vec4 (Shader.main u c0)
    (if two_tone u then colour2 u
     else {| Shader.r := 0; Shader.g := 0; Shader.b := 0;
             Shader.a := Shader.Alf1 u |}).
Proof.
  intros Hsmooth Hlum. rewrite main_level. cbv zeta.
  destruct (smoothstep_spec (Shader.Threshold u)
              (Shader.Threshold u + Shader.Smoothness u) (luminance c0)
              ltac:(lra)) as (_ & Hf & _).
  specialize (Hf Hlum). fold (level u c0) in Hf.
  rewrite (proj1 (Qlt_bool_half (level u c0)) Hf).
  unfold same_vec4.
  destruct (two_tone u).
  - unfold colour2. cbn [Shader.r Shader.g Shader.b Shader.a].
    rewrite Hf. repeat split; ring.
  - destruct (chroma u); cbn [Shader.r Shader.g Shader.b Shader.a].
    + destruct (hsvToRgb_scale (Shader.x (Shader.rgbToHsv (rgb_of c0)))
                  (Shader.y (Shader.rgbToHsv (rgb_of c0))) (level u c0))
        as (Hx & Hy & Hz).
      cbv zeta in Hx, Hy, Hz. rewrite Hx, Hy, Hz, Hf.
      repeat split; try ring; reflexivity.
    + repeat split; try exact Hf; reflexivity.
Qed.

Lemma main_dark_witness :
  same_vec4 (Shader.main uniforms2 navy) (colour2 uniforms2).
Proof.
  apply (main_dark uniforms2 navy); [reflexivity |].
  vm_compute. discriminate.
Defined.

(** X20: a texel whose luminance is at least threshold plus smoothness
    comes out as colour 1, alpha included, in two-tone mode and as white
    with alpha 2 in the black and white mode. *)
Theorem main_bright (u : Shader.uniforms) (c0 : Shader.vec4) :
  (0 < Shader.Smoothness u)%Q ->
  (Shader.Threshold u + Shader.Smoothness u <= luminance c0)%Q ->
  chroma u = false ->
  same_vec4 (Shader.main u c0)
    (if two_tone u then colour1 u
     else {| Shader.r := 1; Shader.g := 1; Shader.b := 1;
             Shader.a := Shader.Alf2 u |}).
Proof.
  intros Hsmooth Hlum Hchroma. rewrite main_level. cbv zeta.
  destruct (smoothstep_spec (Shader.Threshold u)
              (Shader.Threshold u + Shader.Smoothness u) (luminance c0)
              ltac:(lra)) as (_ & _ & Hf).
  specialize (Hf Hlum). fold (level u c0) in Hf.
  rewrite (proj2 (Qlt_bool_half (level u c0)) Hf).
  rewrite Hchroma. unfold same_vec4.
  destruct (two_tone u).
  - unfold colour1. cbn [Shader.r Shader.g Shader.b Shader.a].
    rewrite Hf. repeat split; ring.
  - cbn [Shader.r Shader.g Shader.b Shader.a].
    repeat split; try exact Hf; reflexivity.
Qed.

Lemma main_bright_witness :
  same_vec4 (Shader.main uniforms2 orange) (colour1 uniforms2).
Proof.
  apply (main_bright uniforms2 orange); [reflexivity | | reflexivity].
  vm_compute. discriminate.
Defined.

(** X21: in chroma mode the colour written is the texel's colour with its
    value (largest channel) replaced by the blend factor: each colour
    channel of the result, times the texel's largest channel, is the blend
    factor times the texel's channel; alpha is alpha 2 when the factor is
    above one half and alpha 1 otherwise. *)
Theorem main_chroma (u : Shader.uniforms) (c0 : Shader.vec4) :
  (0 < Shader.Smoothness u)%Q ->
  chroma u = true ->
  (0 <= Shader.r c0)%Q -> (0 <= Shader.g c0)%Q -> (0 <= Shader.b c0)%Q ->
  let f := level u c0 in
  let top := Shader.maxChannel (rgb_of c0) in
  let out := Shader.main u c0 in
  (Shader.r out * top == f * Shader.r c0)%Q /\
  (Shader.g out * top == f * Shader.g c0)%Q /\
  (Shader.b out * top == f * Shader.b c0)%Q /\
  Shader.a out = (if Qlt_bool (5 # 10) f
                  then Shader.Alf2 u else Shader.Alf1 u).
Proof.
  intros Hsmooth Hchroma Hr Hg Hb. cbv zeta. rewrite main_level. cbv zeta.
  assert (Htt : two_tone u = false).
  { unfold chroma in Hchroma. unfold two_tone.
    apply andb_true_iff in Hchroma. destruct Hchroma as (Hc & Ht).
    apply andb_false_iff. right. lia. }
  rewrite Htt, Hchroma. cbn [Shader.r Shader.g Shader.b Shader.a].
  pose proof (hsvToRgb_rgbToHsv (rgb_of c0) Hr Hg Hb) as Hround.
  destruct (rgbToHsv_sv (rgb_of c0)) as (_ & Hv).
  destruct (Shader.rgbToHsv (rgb_of c0)) as [h s v].
  cbn [Shader.x Shader.y Shader.z] in *. subst v.
  set (top := Shader.maxChannel (rgb_of c0)) in *.
  destruct (hsvToRgb_scale h s (level u c0)) as (Hx & Hy & Hz).
  destruct (hsvToRgb_scale h s top) as (Hx' & Hy' & Hz').
  cbv zeta in Hx, Hy, Hz, Hx', Hy', Hz'.
  destruct Hround as (Rx & Ry & Rz).
  cbn [rgb_of Shader.x Shader.y Shader.z] in Rx, Ry, Rz.
  rewrite Hx, Hy, Hz, <- Rx, <- Ry, <- Rz, Hx', Hy', Hz'.
  repeat split; ring.
Qed.

Lemma main_chroma_witness :
  (Shader.r (Shader.main uniforms1 orange) * 1 == 1 * 1)%Q /\
  (Shader.g (Shader.main uniforms1 orange) * 1 == 1 * (1 # 2))%Q /\
  (Shader.b (Shader.main uniforms1 orange) * 1 == 1 * (1 # 4))%Q /\
  Shader.a (Shader.main uniforms1 orange) = (1 # 2)%Q.
Proof.
  apply (main_chroma uniforms1 orange);
    first [reflexivity | cbn; discriminate].
Defined.
